(** * blinkist downloader: the resolver and the download transaction of
    [main.py], embedded and verified.

    The file follows [main.py]: [download_book] (lines 24-101) is a
    computation over the library directory, written in a small state and
    exception monad; the first half of [main] (lines 131-184) builds the
    list [books_to_download]; its second half (lines 186-204) is the
    download loop.  The methods of [Book] and the functions of
    [blinkist.blinkist] are collaborators that live outside [main.py]: they
    are taken as records of functions ([Remote], [Discovery]). *)

From stdpp Require Import gmap strings list fin_maps pretty.

Open Scope string_scope.
Open Scope list_scope.
Open Scope nat_scope.

(** ** Data *)

(** [blinkist.book.Book], the attributes [main.py] reads. *)
Record Book := mkBook {
  slug : string;
  title : string;
  language : string;
  is_audio : bool;
}.

Global Instance Book_eq_dec : EqDecision Book.
Proof. solve_decision. Defined.

Definition Chapter := string.

(** A Python exception that derives from [Exception]: its class and what
    [str(e)] gives.  These are the ones [except Exception] handles;
    interpreter signals such as KeyboardInterrupt are no failures of a
    download step and are not modelled. *)
Record exn := Exn { exn_class : string; exn_str : string }.

Global Instance exn_eq_dec : EqDecision exn.
Proof. solve_decision. Defined.

Definition AssertionError : exn := Exn "AssertionError" EmptyString.
Definition FileNotFoundError (p : string) : exn := Exn "FileNotFoundError" p.
Definition FileExistsError (p : string) : exn := Exn "FileExistsError" p.
Definition OSError (p : string) : exn := Exn "OSError" p.

(** What a collaborator call gives back: a value, or an exception. *)
Inductive res (A : Type) : Type :=
  | Done (a : A)
  | Fails (e : exn).
Arguments Done {A} a.
Arguments Fails {A} e.

(** The keyword arguments click hands to [main], under their option names. *)
Module Kw.
Record t := mk {
  continue_on_error : bool;
  language : option string;
  logincheck : bool;
  no_download : bool;
  redownload : bool;
  book_slug : option string;
  freedaily : bool;
  latest : bool;
  latest_collections : bool;
  search : option string;
  trending : bool;
  limit : option Z;
  audio : bool;
  cover : bool;
  yaml : bool;
  markdown : bool;
}.
End Kw.

(** The calls [download_book] makes on a book, in the order of the source. *)
Inductive step :=
  | ChapterList                 (* book.chapter_list *)
  | Chapters                    (* book.chapters *)
  | RawYaml                     (* book.download_raw_yaml(book_tmp_dir) *)
  | TextMd                      (* book.download_text_md(book_tmp_dir) *)
  | Audio (ch : Chapter)        (* chapter.download_audio(book_tmp_dir) *)
  | Cover.                      (* book.download_cover(book_tmp_dir) *)

Global Instance step_eq_dec : EqDecision step.
Proof. solve_decision. Defined.

(** The methods of [Book] and [Chapter] that [download_book] calls.  The two
    properties fetch over the network and give a value; a writer is handed
    the staging directory and either persists its files there and returns
    (the names of the files are the result) or raises. *)
Record Remote := mkRemote {
  chapter_list : Book → res unit;
  chapters : Book → res (list Chapter);
  download_raw_yaml : Book → res (list string);
  download_text_md : Book → res (list string);
  download_audio : Book → Chapter → res (list string);
  download_cover : Book → res (list string);
}.

(** ** The library directory *)

(** An entry of the library directory: a plain file, or a directory with
    the files written into it, oldest first. *)
Inductive node :=
  | File
  | Dir (files : list string).

Global Instance node_eq_dec : EqDecision node.
Proof. solve_decision. Defined.

Inductive event :=
  | EvCall (s : step)                 (* a call on the remote service *)
  | EvMkdir (name : string)
  | EvRename (src dst : string).

Inductive level := DEBUG | INFO | WARNING | ERROR | CRITICAL.

(** The state [download_book] runs in: the entries of [library_dir] ([None]
    when the directory itself does not exist), the calls and directory
    operations made so far, and the log. *)
Record world := World {
  fs : option (gmap string node);
  trace : list event;
  logs : list (level * string);
}.

(** ** A state and exception monad *)

Inductive outcome (A : Type) : Type :=
  | Ret (a : A)              (* the computation returned *)
  | Raise (e : exn)          (* an exception left it *)
  | Diverge.                 (* a loop ran out of fuel *)
Arguments Ret {A} a.
Arguments Raise {A} e.
Arguments Diverge {A}.

Definition M (A : Type) : Type := world → outcome A * world.

Definition ret {A} (a : A) : M A := λ w, (Ret a, w).

Definition bind {A B} (m : M A) (k : A → M B) : M B := λ w,
  match m w with
  | (Ret a, w') => k a w'
  | (Raise e, w') => (Raise e, w')
  | (Diverge, w') => (Diverge, w')
  end.

Definition raise {A} (e : exn) : M A := λ w, (Raise e, w).

Definition diverge {A} : M A := λ w, (Diverge, w).

(** [try: m  except Exception as e: h e] *)
Definition try_except {A} (m : M A) (h : exn → M A) : M A := λ w,
  match m w with
  | (Raise e, w') => h e w'
  | r => r
  end.

Declare Scope py_scope.
Delimit Scope py_scope with py.
Notation "x <- m ;; k" := (bind m (λ x, k))
  (at level 100, m at next level, right associativity) : py_scope.
Notation "m >> k" := (bind m (λ _, k))
  (at level 100, k at level 200, right associativity) : py_scope.
Open Scope py_scope.

(** ** Primitive operations *)

Definition log (lvl : level) (msg : string) : M unit := λ w,
  (Ret tt, World (fs w) (trace w) (logs w ++ [(lvl, msg)])).

(** [library_dir.exists()] *)
Definition library_dir_exists : M bool := λ w,
  (Ret (bool_decide (is_Some (fs w))), w).

(** [(library_dir / name).exists()] *)
Definition path_exists (name : string) : M bool := λ w,
  (Ret (match fs w with
        | Some lib => bool_decide (is_Some (lib !! name))
        | None => false
        end), w).

(** [(library_dir / name).mkdir()], without [parents] and [exist_ok]. *)
Definition mkdir (name : string) : M unit := λ w,
  match fs w with
  | None => (Raise (FileNotFoundError name), w)
  | Some lib =>
      match lib !! name with
      | Some _ => (Raise (FileExistsError name), w)
      | None => (Ret tt, World (Some (<[name := Dir []]> lib))
                               (trace w ++ [EvMkdir name]) (logs w))
      end
  end.

(** [(library_dir / src).rename(library_dir / dst)] as POSIX has it: the
    entry moves; an existing target is replaced only when it is an empty
    directory and the source is a directory. *)
Definition rename (src dst : string) : M unit := λ w,
  match fs w with
  | None => (Raise (FileNotFoundError src), w)
  | Some lib =>
      match lib !! src, lib !! dst with
      | None, _ => (Raise (FileNotFoundError src), w)
      | Some n, None | Some (Dir _ as n), Some (Dir []) =>
          (Ret tt, World (Some (<[dst := n]> (delete src lib)))
                         (trace w ++ [EvRename src dst]) (logs w))
      | Some _, Some _ => (Raise (OSError dst), w)
      end
  end.

(** A property of the book that fetches over the network. *)
Definition fetch {A} (s : step) (r : res A) : M A := λ w,
  let w' := World (fs w) (trace w ++ [EvCall s]) (logs w) in
  match r with
  | Done a => (Ret a, w')
  | Fails e => (Raise e, w')
  end.

(** A writer called with the directory [dir]: when it returns, its files
    are in [dir]. *)
Definition write (s : step) (dir : string) (r : res (list string)) : M unit := λ w,
  let w' := World (fs w) (trace w ++ [EvCall s]) (logs w) in
  match r with
  | Fails e => (Raise e, w')
  | Done new =>
      match fs w with
      | Some lib =>
          match lib !! dir with
          | Some (Dir old) =>
              (Ret tt, World (Some (<[dir := Dir (old ++ new)]> lib))
                             (trace w ++ [EvCall s]) (logs w))
          | _ => (Raise (FileNotFoundError dir), w')
          end
      | None => (Raise (FileNotFoundError dir), w')
      end
  end.

(** [for x in xs: body x] *)
Fixpoint for_each {A} (xs : list A) (body : A → M unit) : M unit :=
  match xs with
  | [] => ret tt
  | x :: xs' => body x >> for_each xs' body
  end.

(** [if b: m] *)
Definition when (b : bool) (m : M unit) : M unit := if b then m else ret tt.

(** ** [download_book] *)

(** The name of the staging directory tried in round [i] of the loop at
    lines 51-55: [f"{book_dir.name}.tmp"], then [f"{book_dir.name}.tmp{i}"]. *)
Definition tmp_name (name : string) (i : nat) : string :=
  match i with
  | O => name +:+ ".tmp"
  | S _ => name +:+ ".tmp" +:+ pretty i
  end.

(** [while book_tmp_dir.exists(): i += 1; book_tmp_dir = ...], entered with
    the counter [i] and [book_tmp_dir = tmp_name name i]. *)
Fixpoint tmp_loop (fuel : nat) (name : string) (i : nat) : M string :=
  match fuel with
  | O => diverge
  | S fuel' =>
      taken <- path_exists (tmp_name name i) ;;
      if taken then tmp_loop fuel' name (S i) else ret (tmp_name name i)
  end.

(** Lines 51-55.  The loop can meet at most as many taken names as the
    library directory has entries, which bounds its rounds. *)
Definition book_tmp_dir (name : string) : M string := λ w,
  tmp_loop (S (from_option size 0 (fs w))) name 0 w.

(** Lines 59-87: the body of [try] up to the commit. *)
Definition stage (c : Remote) (book : Book) (kw : Kw.t) (tmp : string) : M unit :=
  fetch ChapterList (chapter_list c book) >>
  chs <- fetch Chapters (chapters c book) ;;
  when (Kw.yaml kw) (write RawYaml tmp (download_raw_yaml c book)) >>
  when (Kw.markdown kw) (write TextMd tmp (download_text_md c book)) >>
  when (Kw.audio kw)
    (if is_audio book
     then for_each chs (λ ch, write (Audio ch) tmp (download_audio c book ch))
     else log WARNING "This book has no audio.") >>
  when (Kw.cover kw) (write Cover tmp (download_cover c book)).

(** Lines 90-91: [assert not book_dir.exists()], then the rename. *)
Definition commit (tmp book_dir : string) : M unit :=
  there <- path_exists book_dir ;;
  if there then raise AssertionError else rename tmp book_dir.

(** Lines 92-101: the [except Exception as e] clause. *)
Definition on_error (book : Book) (kw : Kw.t) (tmp : string) (e : exn) : M unit :=
  log ERROR ("Error downloading “" +:+ title book +:+ "”: " +:+ exn_str e) >>
  log INFO ("Keeping temporary output directory “" +:+ tmp +:+ "”") >>
  if Kw.continue_on_error kw
  then log INFO "Continuing with next book… (--continue-on-error was set)"
  else
    log CRITICAL "Exiting…" >>
    log CRITICAL "Hint: Try using --continue-on-error." >>
    raise e.

Definition download_book (c : Remote) (book : Book) (kw : Kw.t) : M unit :=
  ok <- library_dir_exists ;;
  if negb ok then raise AssertionError else
  let book_dir := slug book in
  there <- path_exists book_dir ;;
  if there && negb (Kw.redownload kw) then
    log INFO ("Skipping “" +:+ title book +:+ "” – already downloaded.")
  else
    tmp <- book_tmp_dir book_dir ;;
    mkdir tmp >>
    try_except (stage c book kw tmp >> commit tmp book_dir)
               (on_error book kw tmp).

(** ** [main]: building [books_to_download] *)

(** A collection of [blinkist.blinkist], with the attributes [main] reads. *)
Record Collection := mkCollection {
  collection_title : string;
  books : list Book;
}.

(** The functions of [blinkist.blinkist] and [Book.from_slug] that [main]
    calls to find books. *)
Record Discovery := mkDiscovery {
  get_me : res unit;
  from_slug : string → res Book;
  get_latest_collections : res (list Collection);
  get_free_daily : string → res Book;
  search_books : string → option string → option Z → res (list Book);
  get_latest_books : option Z → res (list Book);
  get_trending_books : option Z → res (list Book);
}.

Global Instance res_ret : MRet res := @Done.
Global Instance res_bind : MBind res := λ A B k m,
  match m with
  | Done a => k a
  | Fails e => Fails e
  end.

(** [for x in xs: acc = f acc x], where [f] may raise. *)
Fixpoint res_fold {A B} (f : A → B → res A) (a : A) (xs : list B) : res A :=
  match xs with
  | [] => Done a
  | x :: xs' => a' ← f a x; res_fold f a' xs'
  end.

(** Modelled from the spec: the equality and hash of [Book]
    (blinkist/book.py), by which a Python set tells its members apart: two
    work items are the same job iff their identifiers, the slugs, are
    equal. *)
Definition Book_eqb (a b : Book) : bool := bool_decide (slug a = slug b).

(** A Python [set] of books, as the list of its members in the order they
    were added: [add] leaves the set alone when it has an equal member. *)
Definition set_add (s : list Book) (b : Book) : list Book :=
  if existsb (Book_eqb b) s then s else s ++ [b].

(** [set(xs)] *)
Definition set_of (xs : list Book) : list Book := foldl set_add [] xs.

(** The order in which a run of the interpreter iterates over a set.  Python
    leaves it open: it follows the hashes of the members, which differ from
    one run to the next.  All that is known is that every member comes
    once. *)
Record SetOrder := mkSetOrder {
  iterate : list Book → list Book;
  iterate_perm : ∀ s, iterate s ≡ₚ s;
}.

(** [s |= t]: the members of [t] are added as the iteration over [t] meets
    them. *)
Definition set_update (it : SetOrder) (s t : list Book) : list Book :=
  foldl set_add s (iterate it t).

(** The value of a string option when Python takes it for true. *)
Definition truthy (o : option string) : option string :=
  match o with
  | Some s => if decide (s = EmptyString) then None else Some s
  | None => None
  end.

(** Line 131.  [LANGUAGES] is the constant of [blinkist.config]. *)
Definition languages_to_download (LANGUAGES : list string) (kw : Kw.t) : list string :=
  match truthy (Kw.language kw) with
  | Some l => [l]
  | None => LANGUAGES
  end.

(** Lines 132-176, without the login check: the set [books_to_download]
    after the last directive. *)
Definition gather (d : Discovery) (LANGUAGES : list string) (it : SetOrder)
    (kw : Kw.t) : res (list Book) :=
  let langs := languages_to_download LANGUAGES kw in
  s ← match truthy (Kw.book_slug kw) with
      | Some sl => b ← from_slug d sl; mret (set_add [] b)
      | None => mret []
      end;
  s ← (if Kw.latest_collections kw
       then cs ← get_latest_collections d;
            mret (foldl (λ s c, set_update it s (set_of (books c))) s cs)
       else mret s);
  s ← (if Kw.freedaily kw
       then res_fold (λ s l, b ← get_free_daily d l; mret (set_add s b)) s langs
       else mret s);
  s ← match truthy (Kw.search kw) with
      | Some q =>
          bs ← search_books d q
                 (match truthy (Kw.language kw) with
                  | Some _ => head langs
                  | None => None
                  end)
                 (Kw.limit kw);
          mret (set_update it s (set_of bs))
      | None => mret s
      end;
  s ← (if Kw.latest kw
       then bs ← get_latest_books d (Kw.limit kw);
            mret (set_update it s (set_of bs))
       else mret s);
  if Kw.trending kw
  then bs ← get_trending_books d (Kw.limit kw);
       mret (set_update it s (set_of bs))
  else mret s.

(** Line 179: the list comprehension over the set. *)
Definition filter_languages (langs : list string) (it : SetOrder)
    (s : list Book) : list Book :=
  filter (λ b, language b ∈ langs) (iterate it s).

(** [xs[:n]] *)
Definition slice_to {A} (xs : list A) (n : Z) : list A :=
  if decide (0 ≤ n)%Z
  then take (Z.to_nat n) xs
  else take (length xs - Z.to_nat (- n)) xs.

(** Lines 182-184: [if kwargs['limit']: ...]; [None] and [0] are false. *)
Definition limit_books (limit : option Z) (xs : list Book) : list Book :=
  match limit with
  | Some n => if decide (n = 0%Z) then xs else slice_to xs n
  | None => xs
  end.

(** Lines 131-184: the list the download loop receives. *)
Definition books_to_download (d : Discovery) (LANGUAGES : list string)
    (it : SetOrder) (kw : Kw.t) : res (list Book) :=
  s ← gather d LANGUAGES it kw;
  mret (limit_books (Kw.limit kw)
          (filter_languages (languages_to_download LANGUAGES kw) it s)).

(** ** [main]: the download loop *)

(** Lines 193-204. *)
Definition download_all (c : Remote) (kw : Kw.t) (jobs : list Book) : M unit :=
  for_each jobs (λ book,
    log INFO ("Book: “" +:+ title book +:+ "”") >>
    when (negb (Kw.no_download kw)) (download_book c book kw)).

(** Lines 134-139: the login check. *)
Definition login_check (d : Discovery) (kw : Kw.t) : M unit :=
  when (Kw.logincheck kw)
    match get_me d with
    | Done _ => ret tt
    | Fails e =>
        log CRITICAL "You are not logged in, but --logincheck was passed. Check that you are logged in in your browser or pass --no-login." >>
        raise e
    end.

(** [main].  The progress display and the log lines of the discovery phase
    leave no mark on the result and are left out. *)
Definition main (d : Discovery) (c : Remote) (LANGUAGES : list string)
    (it : SetOrder) (kw : Kw.t) : M unit :=
  login_check d kw >>
  match books_to_download d LANGUAGES it kw with
  | Fails e => raise e
  | Done [] =>
      log INFO "No books to download." >>
      log INFO "Hint: Try passing an option like --freedaily." >>
      when (bool_decide (is_Some (truthy (Kw.language kw))))
        (log INFO "Hint: Maybe there were no books in the specified --language?")
  | Done jobs => download_all c kw jobs
  end.

(** ** The steps of a transaction *)

(** What the call [s] on [book] gives: the files a writer leaves in the
    staging directory (none for the two properties), or its exception. *)
Definition step_result (c : Remote) (book : Book) (s : step) : res (list string) :=
  match s with
  | ChapterList => _ ← chapter_list c book; mret []
  | Chapters => _ ← chapters c book; mret []
  | RawYaml => download_raw_yaml c book
  | TextMd => download_text_md c book
  | Audio ch => download_audio c book ch
  | Cover => download_cover c book
  end.

Definition succeeds (c : Remote) (book : Book) (s : step) : Prop :=
  ∃ files, step_result c book s = Done files.

(** The files that the steps [steps] leave behind, oldest first. *)
Definition artifacts (c : Remote) (book : Book) (steps : list step) : list string :=
  steps ≫= λ s, match step_result c book s with
                 | Done files => files
                 | Fails _ => []
                 end.

(** The steps the switches ask of [book], in the order of lines 59-87: the
    two prefetches, then the enabled artifact kinds, the audio chapter by
    chapter and only for a book that has audio. *)
Definition plan (c : Remote) (book : Book) (kw : Kw.t) : list step :=
  [ChapterList; Chapters] ++
  (if Kw.yaml kw then [RawYaml] else []) ++
  (if Kw.markdown kw then [TextMd] else []) ++
  (if Kw.audio kw && is_audio book
   then Audio <$> match chapters c book with
                  | Done chs => chs
                  | Fails _ => []
                  end
   else []) ++
  (if Kw.cover kw then [Cover] else []).

(** The steps [steps] run one after the other until one raises: the result,
    the files then in the staging directory, and the trace, from the files
    [files] and the trace [tr]. *)
Fixpoint run_steps (c : Remote) (book : Book) (steps : list step)
    (files : list string) (tr : list event) : outcome unit * list string * list event :=
  match steps with
  | [] => (Ret tt, files, tr)
  | s :: steps' =>
      match step_result c book s with
      | Done new => run_steps c book steps' (files ++ new) (tr ++ [EvCall s])
      | Fails e => (Raise e, files, tr ++ [EvCall s])
      end
  end.

(** The computation [m] does to the staging directory [tmp] and to the
    trace what running [steps] does, whatever it logs. *)
Definition runs (c : Remote) (book : Book) (tmp : string) (m : M unit)
    (steps : list step) : Prop :=
  ∀ w lib old, fs w = Some lib → lib !! tmp = Some (Dir old) →
    ∃ lg, m w =
      match run_steps c book steps old (trace w) with
      | (r, files, tr) =>
          (r, World (Some (<[tmp := Dir files]> lib)) tr (logs w ++ lg))
      end.

(** The lines the [except] clause logs. *)
Definition error_report (book : Book) (kw : Kw.t) (tmp : string) (e : exn) :
    list (level * string) :=
  [(ERROR, "Error downloading “" +:+ title book +:+ "”: " +:+ exn_str e);
   (INFO, "Keeping temporary output directory “" +:+ tmp +:+ "”")] ++
  (if Kw.continue_on_error kw
   then [(INFO, "Continuing with next book… (--continue-on-error was set)")]
   else [(CRITICAL, "Exiting…");
         (CRITICAL, "Hint: Try using --continue-on-error.")]).

(** How the [except] clause leaves [download_book]. *)
Definition after_error (kw : Kw.t) (e : exn) : outcome unit :=
  if Kw.continue_on_error kw then Ret tt else Raise e.

(** A transaction that has started on the library [lib] fails with [e]: a
    step of the plan raises [e] after the steps before it succeeded, or all
    steps succeed and the assertion of line 90 finds the final directory. *)
Definition staging_fails (c : Remote) (book : Book) (kw : Kw.t)
    (lib : gmap string node) (e : exn) : Prop :=
  (∃ done s rest, plan c book kw = done ++ s :: rest ∧
                  Forall (succeeds c book) done ∧
                  step_result c book s = Fails e) ∨
  (Forall (succeeds c book) (plan c book kw) ∧
   is_Some (lib !! slug book) ∧ e = AssertionError).

(** The world once the loop of [main] has announced [book]. *)
Definition announced (book : Book) (w : world) : world :=
  World (fs w) (trace w) (logs w ++ [(INFO, "Book: “" +:+ title book +:+ "”")]).

(** ** Two runs of the resolver *)

(** Two collaborator results agree: both raise the same exception, or both
    give values that [R] relates. *)
Definition res_rel {A} (R : A → A → Prop) (m1 m2 : res A) : Prop :=
  match m1, m2 with
  | Done a1, Done a2 => R a1 a2
  | Fails e1, Fails e2 => e1 = e2
  | _, _ => False
  end.

(** Two sets hold the same books, each identifier once. *)
Definition same_set (s1 s2 : list Book) : Prop :=
  NoDup (slug <$> s1) ∧ s1 ≡ₚ s2.

(** The claim that, with no language asked for, the language filter of
    line 179 drops no gathered book. *)
Definition keeps_every_language (d : Discovery) (LANGUAGES : list string)
    (it : SetOrder) (kw : Kw.t) : Prop :=
  truthy (Kw.language kw) = None →
  ∀ s, gather d LANGUAGES it kw = Done s →
  ∀ b, b ∈ s → b ∈ filter_languages (languages_to_download LANGUAGES kw) it s.

(** The claim that two runs over the same directive results resolve the
    same list, in the same order. *)
Definition same_order_every_run (d : Discovery) (LANGUAGES : list string)
    (kw : Kw.t) : Prop :=
  ∀ it1 it2 jobs1 jobs2,
    books_to_download d LANGUAGES it1 kw = Done jobs1 →
    books_to_download d LANGUAGES it2 kw = Done jobs2 →
    jobs1 = jobs2.

(** ** Sample runs *)

Module Sample.
Definition alpha : Book := mkBook "alpha" "Alpha" "en" true.
Definition beta : Book := mkBook "beta" "Beta" "de" false.
Definition libro : Book := mkBook "libro" "Libro" "es" true.

Definition timed_out : exn := Exn "ConnectionError" "timed out".

(** A service on which every call succeeds. *)
Definition remote_ok : Remote := {|
  chapter_list := λ _, Done tt;
  chapters := λ _, Done ["c1"; "c2"];
  download_raw_yaml := λ _, Done ["book.yaml"];
  download_text_md := λ _, Done ["book.md"];
  download_audio := λ _ ch, Done [ch +:+ ".m4a"];
  download_cover := λ _, Done ["cover.jpg"];
|}.

(** The audio of the second chapter cannot be fetched. *)
Definition remote_audio_fails : Remote := {|
  chapter_list := λ _, Done tt;
  chapters := λ _, Done ["c1"; "c2"];
  download_raw_yaml := λ _, Done ["book.yaml"];
  download_text_md := λ _, Done ["book.md"];
  download_audio := λ _ ch,
    if decide (ch = "c2") then Fails timed_out else Done [ch +:+ ".m4a"];
  download_cover := λ _, Done ["cover.jpg"];
|}.

(** The options click gives when only the library directory is named. *)
Definition kw_default : Kw.t := {|
  Kw.continue_on_error := false; Kw.language := None;
  Kw.logincheck := true; Kw.no_download := false; Kw.redownload := false;
  Kw.book_slug := None; Kw.freedaily := false; Kw.latest := false;
  Kw.latest_collections := false; Kw.search := None; Kw.trending := false;
  Kw.limit := None;
  Kw.audio := true; Kw.cover := true; Kw.yaml := true; Kw.markdown := true;
|}.

Definition kw_continue : Kw.t := {|
  Kw.continue_on_error := true; Kw.language := None;
  Kw.logincheck := true; Kw.no_download := false; Kw.redownload := false;
  Kw.book_slug := None; Kw.freedaily := false; Kw.latest := false;
  Kw.latest_collections := false; Kw.search := None; Kw.trending := false;
  Kw.limit := None;
  Kw.audio := true; Kw.cover := true; Kw.yaml := true; Kw.markdown := true;
|}.

Definition kw_redownload : Kw.t := {|
  Kw.continue_on_error := false; Kw.language := None;
  Kw.logincheck := true; Kw.no_download := false; Kw.redownload := true;
  Kw.book_slug := None; Kw.freedaily := false; Kw.latest := false;
  Kw.latest_collections := false; Kw.search := None; Kw.trending := false;
  Kw.limit := None;
  Kw.audio := true; Kw.cover := true; Kw.yaml := true; Kw.markdown := true;
|}.

(** [--no-audio --no-cover --no-yaml --no-markdown] *)
Definition kw_nothing : Kw.t := {|
  Kw.continue_on_error := false; Kw.language := None;
  Kw.logincheck := true; Kw.no_download := false; Kw.redownload := false;
  Kw.book_slug := None; Kw.freedaily := false; Kw.latest := false;
  Kw.latest_collections := false; Kw.search := None; Kw.trending := false;
  Kw.limit := None;
  Kw.audio := false; Kw.cover := false; Kw.yaml := false; Kw.markdown := false;
|}.

(** [--latest-collections --trending] *)
Definition kw_overlap : Kw.t := {|
  Kw.continue_on_error := false; Kw.language := None;
  Kw.logincheck := true; Kw.no_download := false; Kw.redownload := false;
  Kw.book_slug := None; Kw.freedaily := false; Kw.latest := false;
  Kw.latest_collections := true; Kw.search := None; Kw.trending := true;
  Kw.limit := None;
  Kw.audio := true; Kw.cover := true; Kw.yaml := true; Kw.markdown := true;
|}.


(** [--freedaily --limit 1] *)
Definition kw_limit1 : Kw.t := {|
  Kw.continue_on_error := false; Kw.language := None;
  Kw.logincheck := true; Kw.no_download := false; Kw.redownload := false;
  Kw.book_slug := None; Kw.freedaily := true; Kw.latest := false;
  Kw.latest_collections := false; Kw.search := None; Kw.trending := false;
  Kw.limit := Some 1%Z;
  Kw.audio := true; Kw.cover := true; Kw.yaml := true; Kw.markdown := true;
|}.

(** [--book-slug libro] *)
Definition kw_slug : Kw.t := {|
  Kw.continue_on_error := false; Kw.language := None;
  Kw.logincheck := true; Kw.no_download := false; Kw.redownload := false;
  Kw.book_slug := Some "libro"; Kw.freedaily := false; Kw.latest := false;
  Kw.latest_collections := false; Kw.search := None; Kw.trending := false;
  Kw.limit := None;
  Kw.audio := true; Kw.cover := true; Kw.yaml := true; Kw.markdown := true;
|}.

(** A service whose trending list and whose one collection share both
    books, whose free daily is [alpha] in English and [beta] in German,
    and which knows the Spanish book by its slug. *)
Definition discovery : Discovery := {|
  get_me := Done tt;
  from_slug := λ sl,
    if decide (sl = "libro") then Done libro else Fails (Exn "KeyError" sl);
  get_latest_collections := Done [mkCollection "Picks" [beta; alpha]];
  get_free_daily := λ l, if decide (l = "de") then Done beta else Done alpha;
  search_books := λ _ _ _, Done [];
  get_latest_books := λ _, Done [];
  get_trending_books := λ _, Done [alpha; beta];
|}.

(** A value for the constant of [blinkist.config]. *)
Definition LANGUAGES : list string := ["en"; "de"].

(** Two runs: one iterates a set in the order of insertion, one in the
    opposite order. *)
Definition insertion_order : SetOrder := mkSetOrder id (λ s, reflexivity s).
Definition opposite_order : SetOrder := mkSetOrder reverse reverse_Permutation.

(** An empty library; one with a stale staging directory; one that has
    the book. *)
Definition empty_library : world := World (Some ∅) [] [].
Definition stale_library : world :=
  World (Some {[ "alpha.tmp" := Dir ["book.yaml"] ]}) [] [].
Definition full_library : world :=
  World (Some {[ "alpha" := Dir ["book.yaml"] ]}) [] [].
Definition no_library : world := World None [] [].
End Sample.

(** ** What a run logs *)

(** The line lines 59-87 log when no step raises: the warning of line 82. *)
Definition stage_log (book : Book) (kw : Kw.t) : list (level * string) :=
  if Kw.audio kw && negb (is_audio book)
  then [(WARNING, "This book has no audio.")]
  else [].

(** When the steps [steps] all succeed, the computation [m] returns with
    their files in the staging directory [tmp], their calls in the trace and
    the lines [lg] in the log. *)
Definition runs_ok (c : Remote) (book : Book) (tmp : string) (m : M unit)
    (steps : list step) (lg : list (level * string)) : Prop :=
  ∀ w lib old, fs w = Some lib → lib !! tmp = Some (Dir old) →
    Forall (succeeds c book) steps →
    m w = (Ret tt,
           World (Some (<[tmp := Dir (old ++ artifacts c book steps)]> lib))
                 (trace w ++ (EvCall <$> steps)) (logs w ++ lg)).

(** The lines the loop of [main] logs to announce the books [jobs]. *)
Definition announcements (jobs : list Book) : list (level * string) :=
  (λ book, (INFO, "Book: “" +:+ title book +:+ "”")) <$> jobs.

(** The lines the loop of [main] logs for books that are all skipped. *)
Definition skip_report (jobs : list Book) : list (level * string) :=
  jobs ≫= λ book,
    [(INFO, "Book: “" +:+ title book +:+ "”");
     (INFO, "Skipping “" +:+ title book +:+ "” – already downloaded.")].


(** ** What the directives return *)

(** The books the invoked directives of lines 141-176 return, one after
    the other in the order of the calls, with their repetitions. *)
Definition discovered (d : Discovery) (LANGUAGES : list string) (kw : Kw.t) :
    res (list Book) :=
  let langs := languages_to_download LANGUAGES kw in
  all ← match truthy (Kw.book_slug kw) with
        | Some sl => b ← from_slug d sl; mret [b]
        | None => mret []
        end;
  all ← (if Kw.latest_collections kw
         then cs ← get_latest_collections d;
              mret (foldl (λ all c, all ++ books c) all cs)
         else mret all);
  all ← (if Kw.freedaily kw
         then res_fold (λ all l, b ← get_free_daily d l; mret (all ++ [b]))
                all langs
         else mret all);
  all ← match truthy (Kw.search kw) with
        | Some q =>
            bs ← search_books d q
                   (match truthy (Kw.language kw) with
                    | Some _ => head langs
                    | None => None
                    end)
                   (Kw.limit kw);
            mret (all ++ bs)
        | None => mret all
        end;
  all ← (if Kw.latest kw
         then bs ← get_latest_books d (Kw.limit kw); mret (all ++ bs)
         else mret all);
  if Kw.trending kw
  then bs ← get_trending_books d (Kw.limit kw); mret (all ++ bs)
  else mret all.

(** The set [s] stands for the books [all]: its members are among them,
    and it has the identifier of each of them. *)
Definition represents (s all : list Book) : Prop :=
  (∀ b, b ∈ s → b ∈ all) ∧ (∀ b, b ∈ all → slug b ∈ slug <$> s).

(** ** More sample runs *)

Module Runs.
(** [--no-download] *)
Definition kw_dry : Kw.t := {|
  Kw.continue_on_error := false; Kw.language := None;
  Kw.logincheck := true; Kw.no_download := true; Kw.redownload := false;
  Kw.book_slug := None; Kw.freedaily := false; Kw.latest := false;
  Kw.latest_collections := false; Kw.search := None; Kw.trending := false;
  Kw.limit := None;
  Kw.audio := true; Kw.cover := true; Kw.yaml := true; Kw.markdown := true;
|}.

Definition not_logged_in : exn := Exn "HTTPError" "401 Unauthorized".

(** A service that refuses the login check. *)
Definition discovery_logged_out : Discovery := {|
  get_me := Fails not_logged_in;
  from_slug := λ sl, Fails (Exn "KeyError" sl);
  get_latest_collections := Done [];
  get_free_daily := λ _, Fails not_logged_in;
  search_books := λ _ _ _, Done [];
  get_latest_books := λ _, Done [];
  get_trending_books := λ _, Done [];
|}.
End Runs.

(** * Verification *)

(** ** Staging directory names *)

Lemma string_app_nil_r (s : string) : s +:+ EmptyString = s.
Proof.
  induction s as [|a s IH]; [done|].
  change (String a (s +:+ EmptyString) = String a s). by rewrite IH.
Qed.

Lemma pretty_N_go_nonempty (x : N) (s : string) :
  s ≠ EmptyString → pretty_N_go x s ≠ EmptyString.
Proof.
  revert s. induction (N.lt_wf_0 x) as [x _ IH]; intros s Hs.
  destruct (decide (x = 0)%N) as [->|Hx].
  - by rewrite pretty_N_go_0.
  - rewrite pretty_N_go_step by lia. apply IH; [|done].
    apply N.div_lt; lia.
Qed.

Lemma pretty_nat_nonempty (n : nat) : pretty n ≠ EmptyString.
Proof.
  unfold pretty, pretty_nat, pretty, pretty_N.
  case_decide; [done|].
  rewrite pretty_N_go_step by lia.
  by apply pretty_N_go_nonempty.
Qed.

Lemma tmp_suffix_nonempty (i : nat) : ".tmp" +:+ pretty i ≠ ".tmp".
Proof.
  intros H. rewrite <-(string_app_nil_r ".tmp") in H at 2.
  apply (inj (String.append ".tmp")) in H. by apply pretty_nat_nonempty in H.
Qed.

Lemma tmp_name_inj (name : string) (i j : nat) :
  tmp_name name i = tmp_name name j → i = j.
Proof.
  destruct i as [|i], j as [|j]; simpl; intros H; [done| | |];
    apply (inj (String.append name)) in H.
  - symmetry in H. by apply tmp_suffix_nonempty in H.
  - by apply tmp_suffix_nonempty in H.
  - apply (inj (String.append ".tmp")) in H. by apply (inj pretty).
Qed.

Lemma tmp_name_ne (name : string) (i : nat) : tmp_name name i ≠ name.
Proof.
  intros H. destruct i; simpl in H;
    rewrite <-(string_app_nil_r name) in H at 2;
    apply (inj (String.append name)) in H; cbv [String.append] in H;
    discriminate H.
Qed.

(** The loop stops at the first free name, or runs out of fuel with every
    name it tried taken. *)
Lemma tmp_loop_spec (name : string) (lib : gmap string node) (fuel i : nat) (w : world) :
  fs w = Some lib →
  (∃ j, i ≤ j < i + fuel ∧ tmp_loop fuel name i w = (Ret (tmp_name name j), w) ∧
        lib !! tmp_name name j = None ∧
        ∀ k, i ≤ k < j → is_Some (lib !! tmp_name name k)) ∨
  (tmp_loop fuel name i w = (Diverge, w) ∧
   ∀ k, i ≤ k < i + fuel → is_Some (lib !! tmp_name name k)).
Proof.
  intros Hfs. revert i. induction fuel as [|fuel IH]; intros i.
  - right. split; [done | lia].
  - simpl. unfold bind, path_exists. rewrite Hfs.
    destruct (lib !! tmp_name name i) as [n|] eqn:Hi.
    + rewrite bool_decide_eq_true_2 by eauto. simpl.
      destruct (IH (S i)) as [(j & Hj & Hrun & Hfree & Htaken)|[Hrun Htaken]].
      * left. exists j. split_and!; [lia|lia|done|done|].
        intros k Hk. destruct (decide (k = i)) as [->|]; [eauto|apply Htaken; lia].
      * right. split; [done|].
        intros k Hk. destruct (decide (k = i)) as [->|]; [eauto|apply Htaken; lia].
    + rewrite bool_decide_eq_false_2 by apply is_Some_None. simpl.
      left. exists i. split_and!; [lia|lia|done|done|lia].
Qed.

(** A map cannot hold more staging names than it has entries. *)
Lemma tmp_names_bounded (name : string) (lib : gmap string node) (n : nat) :
  (∀ k : nat, (k < n)%nat → is_Some (lib !! tmp_name name k)) → (n ≤ size lib)%nat.
Proof.
  intros Htaken.
  set (X := list_to_set (tmp_name name <$> seq 0 n) : gset string).
  assert (size X = n) as HX.
  { unfold X. rewrite size_list_to_set, length_fmap, length_seq; [done|].
    apply NoDup_fmap_2_strong; [|apply NoDup_seq].
    intros ?? _ _. apply tmp_name_inj. }
  rewrite <-HX at 1. rewrite <-(size_dom (D:=gset string) lib).
  apply subseteq_size.
  intros x. unfold X. rewrite elem_of_list_to_set, list_elem_of_fmap.
  intros (k & -> & Hk). apply elem_of_seq in Hk.
  apply elem_of_dom, Htaken. lia.
Qed.

(** Lines 51-55 end, with the first name of the sequence that is free. *)
Lemma book_tmp_dir_fresh (name : string) (lib : gmap string node) (w : world) :
  fs w = Some lib →
  ∃ i, book_tmp_dir name w = (Ret (tmp_name name i), w) ∧
       lib !! tmp_name name i = None ∧
       ∀ k : nat, (k < i)%nat → is_Some (lib !! tmp_name name k).
Proof.
  intros Hfs. unfold book_tmp_dir. rewrite Hfs. simpl.
  destruct (tmp_loop_spec name lib (S (size lib)) 0 w Hfs)
    as [(j & Hj & Hrun & Hfree & Htaken)|[_ Htaken]].
  - exists j. split_and!; [done|done|]. intros k Hk. apply Htaken. lia.
  - assert (S (size lib) ≤ size lib)%nat; [|lia].
    apply (tmp_names_bounded name). intros k Hk. apply Htaken. lia.
Qed.

(** ** The monad *)

Lemma bind_ret_run {A B} (m : M A) (k : A → M B) (w w' : world) (a : A) :
  m w = (Ret a, w') → bind m k w = k a w'.
Proof. unfold bind. by intros ->. Qed.

Lemma bind_raise_run {A B} (m : M A) (k : A → M B) (w w' : world) (e : exn) :
  m w = (Raise e, w') → bind m k w = (Raise e, w').
Proof. unfold bind. by intros ->. Qed.

(** ** Running the steps *)

Section Staging.
Variables (c : Remote) (book : Book) (tmp : string).

Lemma run_steps_app (s1 s2 : list step) (files : list string) (tr : list event) :
  run_steps c book (s1 ++ s2) files tr =
  match run_steps c book s1 files tr with
  | (Ret _, files', tr') => run_steps c book s2 files' tr'
  | r => r
  end.
Proof.
  revert files tr. induction s1 as [|s s1 IH]; intros files tr; simpl; [done|].
  destruct (step_result c book s); [apply IH | done].
Qed.

(** When every step succeeds, all of them ran and all their files are
    there. *)
Lemma run_steps_ok (steps : list step) (files : list string) (tr : list event) :
  Forall (succeeds c book) steps →
  run_steps c book steps files tr =
  (Ret tt, files ++ artifacts c book steps, tr ++ (EvCall <$> steps)).
Proof.
  intros Hok. revert files tr.
  induction Hok as [|s steps [new Hs] _ IH]; intros files tr; simpl.
  - by rewrite !app_nil_r.
  - unfold artifacts in *. simpl. rewrite Hs, IH.
    by rewrite <-!app_assoc.
Qed.

(** When a step raises after [done] succeeded, the run stops there. *)
Lemma run_steps_fail (done rest : list step) (s : step) (e : exn)
    (files : list string) (tr : list event) :
  Forall (succeeds c book) done →
  step_result c book s = Fails e →
  run_steps c book (done ++ s :: rest) files tr =
  (Raise e, files ++ artifacts c book done, tr ++ (EvCall <$> done ++ [s])).
Proof.
  intros Hok Hs. rewrite run_steps_app, run_steps_ok by done. simpl.
  by rewrite Hs, fmap_app, app_assoc.
Qed.

Lemma runs_seq (m1 m2 : M unit) (s1 s2 : list step) :
  runs c book tmp m1 s1 → runs c book tmp m2 s2 →
  runs c book tmp (m1 >> m2) (s1 ++ s2).
Proof.
  intros H1 H2 w lib old Hfs Htmp.
  destruct (H1 w lib old Hfs Htmp) as [lg1 E1].
  rewrite run_steps_app.
  destruct (run_steps c book s1 old (trace w)) as [[[[]|e|] f1] t1].
  - rewrite (bind_ret_run _ _ _ _ _ E1).
    edestruct (H2 (World (Some (<[tmp := Dir f1]> lib)) t1 (logs w ++ lg1)))
      as [lg2 E2]; [done | by apply lookup_insert_eq |].
    exists (lg1 ++ lg2). rewrite E2. simpl.
    destruct (run_steps c book s2 f1 t1) as [[r2 f2] t2].
    by rewrite insert_insert_eq, app_assoc.
  - exists lg1. by rewrite (bind_raise_run _ _ _ _ _ E1).
  - exists lg1. unfold bind. by rewrite E1.
Qed.

Lemma runs_ret : runs c book tmp (ret tt) [].
Proof.
  intros [f t l] lib old Hfs Htmp. simpl in *. subst f. exists [].
  unfold ret. by rewrite insert_id, app_nil_r.
Qed.

Lemma runs_log (lvl : level) (msg : string) : runs c book tmp (log lvl msg) [].
Proof.
  intros [f t l] lib old Hfs Htmp. simpl in *. subst f. exists [(lvl, msg)].
  unfold log. simpl. by rewrite insert_id.
Qed.

Lemma runs_write (s : step) :
  runs c book tmp (write s tmp (step_result c book s)) [s].
Proof.
  intros [f t l] lib old Hfs Htmp. simpl in *. subst f. exists [].
  unfold write. simpl. rewrite Htmp, app_nil_r.
  destruct (step_result c book s); [done|]. by rewrite insert_id.
Qed.

Lemma runs_fetch {A} (s : step) (r : res A) (k : A → M unit) (steps : list step) :
  step_result c book s = (_ ← r; mret []) →
  (∀ a, r = Done a → runs c book tmp (k a) steps) →
  runs c book tmp (x <- fetch s r ;; k x) (s :: steps).
Proof.
  intros Hs Hk [f t l] lib old Hfs Htmp. simpl in *. subst f.
  rewrite Hs. unfold bind, fetch. destruct r as [a|e]; simpl.
  - edestruct (Hk a eq_refl (World (Some lib) (t ++ [EvCall s]) l))
      as [lg E]; [done..|].
    exists lg. by rewrite E, app_nil_r.
  - exists []. by rewrite insert_id, app_nil_r.
Qed.

Lemma runs_when (b : bool) (m : M unit) (steps : list step) :
  runs c book tmp m steps →
  runs c book tmp (when b m) (if b then steps else []).
Proof. destruct b; [done|]. intros _. apply runs_ret. Qed.

Lemma runs_for_each (chs : list Chapter) :
  runs c book tmp
    (for_each chs (λ ch, write (Audio ch) tmp (download_audio c book ch)))
    (Audio <$> chs).
Proof.
  induction chs as [|ch chs IH]; [apply runs_ret|].
  apply (runs_seq _ _ [Audio ch]); [apply (runs_write (Audio ch)) | done].
Qed.

(** Lines 59-87 run the plan. *)
Lemma stage_runs (kw : Kw.t) :
  runs c book tmp (stage c book kw tmp) (plan c book kw).
Proof.
  unfold stage, plan.
  apply (runs_fetch ChapterList); [done|]. intros _ _.
  apply (runs_fetch Chapters); [done|]. intros chs ->.
  apply runs_seq; [apply runs_when, (runs_write RawYaml)|].
  apply runs_seq; [apply runs_when, (runs_write TextMd)|].
  apply runs_seq; [|apply runs_when, (runs_write Cover)].
  destruct (Kw.audio kw), (is_audio book); simpl.
  - apply runs_for_each.
  - apply runs_log.
  - apply runs_ret.
  - apply runs_ret.
Qed.
End Staging.

(** ** The transaction *)

Section Transaction.
Variables (c : Remote) (book : Book) (kw : Kw.t).

(** The [except] clause logs its report and returns or raises again. *)
Lemma on_error_run (tmp : string) (e : exn) (w : world) :
  on_error book kw tmp e w =
  (after_error kw e,
   World (fs w) (trace w) (logs w ++ error_report book kw tmp e)).
Proof.
  unfold on_error, after_error, error_report, bind, log, raise.
  destruct (Kw.continue_on_error kw); simpl; rewrite <-!app_assoc; reflexivity.
Qed.

(** The assertion of line 90 stops the commit when the final directory is
    there. *)
Lemma commit_taken (tmp : string) (w : world) (lib : gmap string node) :
  fs w = Some lib → is_Some (lib !! slug book) →
  commit tmp (slug book) w = (Raise AssertionError, w).
Proof.
  intros Hfs Hthere. unfold commit, bind, path_exists. rewrite Hfs.
  by rewrite bool_decide_eq_true_2.
Qed.

(** Otherwise line 91 moves the staging directory to the final name. *)
Lemma commit_free (tmp : string) (w : world) (lib : gmap string node) (n : node) :
  fs w = Some lib → lib !! slug book = None → lib !! tmp = Some n →
  commit tmp (slug book) w =
  (Ret tt, World (Some (<[slug book := n]> (delete tmp lib)))
                 (trace w ++ [EvRename tmp (slug book)]) (logs w)).
Proof.
  intros Hfs Hfree Htmp. unfold commit, bind, path_exists. rewrite Hfs, Hfree.
  rewrite bool_decide_eq_false_2 by apply is_Some_None. simpl.
  unfold rename. rewrite Hfs, Htmp, Hfree. by destruct n.
Qed.

(** Lines 39-56: when the library directory exists and the book is not
    skipped, the transaction starts in a fresh, empty staging directory
    that bears the first free name. *)
Lemma download_book_started (w : world) (lib : gmap string node) :
  fs w = Some lib →
  lib !! slug book = None ∨ Kw.redownload kw = true →
  ∃ i, lib !! tmp_name (slug book) i = None ∧
       (∀ k : nat, k < i → is_Some (lib !! tmp_name (slug book) k)) ∧
       download_book c book kw w =
       try_except (stage c book kw (tmp_name (slug book) i) >>
                   commit (tmp_name (slug book) i) (slug book))
                  (on_error book kw (tmp_name (slug book) i))
                  (World (Some (<[tmp_name (slug book) i := Dir []]> lib))
                         (trace w ++ [EvMkdir (tmp_name (slug book) i)])
                         (logs w)).
Proof.
  intros Hfs Hstart.
  destruct (book_tmp_dir_fresh (slug book) lib w Hfs) as (i & Hrun & Hfree & Htaken).
  exists i. split_and!; [done..|].
  unfold download_book, bind at 1, library_dir_exists. rewrite Hfs.
  rewrite bool_decide_eq_true_2 by eauto. simpl.
  unfold bind at 1, path_exists. rewrite Hfs.
  assert ((bool_decide (is_Some (lib !! slug book)) && negb (Kw.redownload kw))
          = false) as ->.
  { destruct Hstart as [Hnone| ->]; [|apply andb_false_r].
    rewrite Hnone, bool_decide_eq_false_2; [done | apply is_Some_None]. }
  rewrite (bind_ret_run _ _ _ _ _ Hrun).
  unfold bind at 1, mkdir. by rewrite Hfs, Hfree.
Qed.

(** A step raises: the handler runs on the staging directory as the steps
    before it left it. *)
Lemma download_book_fails (w : world) (lib : gmap string node)
    (done rest : list step) (s : step) (e : exn) :
  fs w = Some lib →
  lib !! slug book = None ∨ Kw.redownload kw = true →
  plan c book kw = done ++ s :: rest →
  Forall (succeeds c book) done →
  step_result c book s = Fails e →
  ∃ i lg,
    lib !! tmp_name (slug book) i = None ∧
    (∀ k : nat, k < i → is_Some (lib !! tmp_name (slug book) k)) ∧
    download_book c book kw w =
    (after_error kw e,
     World (Some (<[tmp_name (slug book) i := Dir (artifacts c book done)]> lib))
           (trace w ++ EvMkdir (tmp_name (slug book) i) :: (EvCall <$> done ++ [s]))
           (logs w ++ lg ++ error_report book kw (tmp_name (slug book) i) e)).
Proof.
  intros Hfs Hstart Hplan Hdone Hs.
  destruct (download_book_started w lib Hfs Hstart) as (i & Hfree & Htaken & ->).
  set (tmp := tmp_name (slug book) i).
  edestruct (stage_runs c book tmp kw
               (World (Some (<[tmp := Dir []]> lib)) (trace w ++ [EvMkdir tmp]) (logs w)))
    as [lg Hstage]; [done | apply lookup_insert_eq |].
  rewrite Hplan, (run_steps_fail _ _ _ _ _ e) in Hstage by done.
  simpl in Hstage. rewrite insert_insert_eq in Hstage.
  exists i, lg. split_and!; [done..|].
  unfold try_except. rewrite (bind_raise_run _ _ _ _ _ Hstage).
  rewrite on_error_run. simpl. by rewrite <-!app_assoc.
Qed.

(** Every step succeeds and the final name is free: the staging directory
    becomes the final directory. *)
Lemma download_book_commits (w : world) (lib : gmap string node) :
  fs w = Some lib →
  lib !! slug book = None →
  Forall (succeeds c book) (plan c book kw) →
  ∃ i lg,
    lib !! tmp_name (slug book) i = None ∧
    (∀ k : nat, k < i → is_Some (lib !! tmp_name (slug book) k)) ∧
    download_book c book kw w =
    (Ret tt,
     World (Some (<[slug book := Dir (artifacts c book (plan c book kw))]> lib))
           (trace w ++ EvMkdir (tmp_name (slug book) i) ::
              (EvCall <$> plan c book kw) ++
              [EvRename (tmp_name (slug book) i) (slug book)])
           (logs w ++ lg)).
Proof.
  intros Hfs Hnone Hok.
  destruct (download_book_started w lib Hfs (or_introl Hnone))
    as (i & Hfree & Htaken & ->).
  set (tmp := tmp_name (slug book) i) in *.
  edestruct (stage_runs c book tmp kw
               (World (Some (<[tmp := Dir []]> lib)) (trace w ++ [EvMkdir tmp]) (logs w)))
    as [lg Hstage]; [done | apply lookup_insert_eq |].
  rewrite run_steps_ok in Hstage by done.
  simpl in Hstage. rewrite insert_insert_eq in Hstage.
  exists i, lg. split_and!; [done..|].
  unfold try_except. rewrite (bind_ret_run _ _ _ _ _ Hstage).
  erewrite commit_free; [|done| |apply lookup_insert_eq].
  - simpl. by rewrite delete_insert_id, <-!app_assoc by done.
  - rewrite lookup_insert_ne; [done | apply tmp_name_ne].
Qed.

(** Every step succeeds but the final directory is there: the assertion
    of line 90 raises into the handler and nothing is renamed. *)
Lemma download_book_race (w : world) (lib : gmap string node) :
  fs w = Some lib →
  is_Some (lib !! slug book) →
  Kw.redownload kw = true →
  Forall (succeeds c book) (plan c book kw) →
  ∃ i lg,
    lib !! tmp_name (slug book) i = None ∧
    (∀ k : nat, k < i → is_Some (lib !! tmp_name (slug book) k)) ∧
    download_book c book kw w =
    (after_error kw AssertionError,
     World (Some (<[tmp_name (slug book) i :=
                      Dir (artifacts c book (plan c book kw))]> lib))
           (trace w ++ EvMkdir (tmp_name (slug book) i) ::
              (EvCall <$> plan c book kw))
           (logs w ++ lg ++
              error_report book kw (tmp_name (slug book) i) AssertionError)).
Proof.
  intros Hfs Hthere Hre Hok.
  destruct (download_book_started w lib Hfs (or_intror Hre))
    as (i & Hfree & Htaken & ->).
  set (tmp := tmp_name (slug book) i) in *.
  edestruct (stage_runs c book tmp kw
               (World (Some (<[tmp := Dir []]> lib)) (trace w ++ [EvMkdir tmp]) (logs w)))
    as [lg Hstage]; [done | apply lookup_insert_eq |].
  rewrite run_steps_ok in Hstage by done.
  simpl in Hstage. rewrite insert_insert_eq in Hstage.
  exists i, lg. split_and!; [done..|].
  unfold try_except. rewrite (bind_ret_run _ _ _ _ _ Hstage).
  erewrite commit_taken; [|done|].
  - rewrite on_error_run. simpl. by rewrite <-!app_assoc.
  - rewrite lookup_insert_ne; [done | apply tmp_name_ne].
Qed.

(** Lines 44-48: the final directory is there and no redownload is asked
    for. *)
Lemma download_book_skips (w : world) (lib : gmap string node) :
  fs w = Some lib →
  is_Some (lib !! slug book) →
  Kw.redownload kw = false →
  download_book c book kw w =
  (Ret tt,
   World (fs w) (trace w)
         (logs w ++ [(INFO, "Skipping “" +:+ title book +:+ "” – already downloaded.")])).
Proof.
  intros Hfs Hthere Hre.
  unfold download_book, bind at 1, library_dir_exists. rewrite Hfs.
  rewrite bool_decide_eq_true_2 by eauto. simpl.
  unfold bind at 1, path_exists. rewrite Hfs, Hre.
  rewrite bool_decide_eq_true_2 by done. simpl. unfold log.
  by rewrite Hfs.
Qed.

(** Line 41: without the library directory the assertion raises. *)
Lemma download_book_no_library (w : world) :
  fs w = None → download_book c book kw w = (Raise AssertionError, w).
Proof.
  intros Hfs. unfold download_book, bind at 1, library_dir_exists.
  rewrite Hfs. rewrite bool_decide_eq_false_2; [done | apply is_Some_None].
Qed.
End Transaction.

(** ** Termination *)

Lemma run_steps_returns (c : Remote) (book : Book) (steps : list step)
    (files : list string) (tr : list event) :
  (run_steps c book steps files tr).1.1 ≠ Diverge.
Proof.
  revert files tr. induction steps as [|s steps IH]; intros files tr; simpl.
  - done.
  - destruct (step_result c book s); [apply IH | done].
Qed.

Lemma commit_returns (tmp book_dir : string) (w : world) :
  (commit tmp book_dir w).1 ≠ Diverge.
Proof.
  destruct w as [[lib|] tr lg]; unfold commit, bind, path_exists, raise, rename;
    simpl; [|done].
  case_bool_decide; simpl; [done|].
  destruct (lib !! tmp) as [[|?]|], (lib !! book_dir) as [[|[|??]]|]; done.
Qed.

(** [download_book] always comes back: the loop that looks for a staging
    name has fuel enough, and nothing else loops without bound. *)
Lemma download_book_returns (c : Remote) (book : Book) (kw : Kw.t) (w : world) :
  (download_book c book kw w).1 ≠ Diverge.
Proof.
  destruct (fs w) as [lib|] eqn:Hfs; [|by rewrite download_book_no_library].
  destruct (decide (lib !! slug book = None ∨ Kw.redownload kw = true))
    as [Hstart|Hskip].
  - destruct (download_book_started c book kw w lib Hfs Hstart)
      as (i & _ & _ & ->).
    set (tmp := tmp_name (slug book) i).
    set (w1 := World _ _ _).
    destruct (stage_runs c book tmp kw w1 (<[tmp := Dir []]> lib) [])
      as [lg Hstage]; [done | apply lookup_insert_eq |].
    pose proof (run_steps_returns c book (plan c book kw) [] (trace w1)) as Hr.
    destruct (run_steps c book (plan c book kw) [] (trace w1)) as [[r files] tr].
    unfold try_except, bind. rewrite Hstage. simpl in Hr.
    destruct r as [[]|e|]; [|..|done].
    + match goal with |- context [commit ?t ?d ?w'] =>
        pose proof (commit_returns t d w') as Hc;
        destruct (commit t d w') as [[[]|e|] w2] end; [done| |done].
      rewrite on_error_run. simpl. unfold after_error.
      by destruct (Kw.continue_on_error kw).
    + rewrite on_error_run. simpl. unfold after_error.
      by destruct (Kw.continue_on_error kw).
  - erewrite download_book_skips; [done|done| |].
    + destruct (lib !! slug book); [by eauto | tauto].
    + destruct (Kw.redownload kw); [tauto | done].
Qed.

(** ** The download loop *)

Lemma download_all_cons (c : Remote) (kw : Kw.t) (book : Book) (rest : list Book)
    (w : world) :
  Kw.no_download kw = false →
  download_all c kw (book :: rest) w =
  match download_book c book kw (announced book w) with
  | (Ret _, w') => download_all c kw rest w'
  | (Raise e, w') => (Raise e, w')
  | (Diverge, w') => (Diverge, w')
  end.
Proof.
  intros Hno. unfold download_all. simpl. unfold bind, log, when.
  rewrite Hno. simpl. fold (announced book w).
  by destruct (download_book c book kw (announced book w)) as [[[]|?|] ?].
Qed.

(** ** The claims on [download_book] *)

(** C1 (atomicity on failure).  The transaction has started (the final
    directory is absent or a redownload is asked for) and step [s] of the
    plan raises after the steps [done] before it succeeded.  Then the entry
    [library_dir/slug] is what it was, absent or untouched; a staging
    directory [slug.tmp] or [slug.tmpN] that was not there before is in the
    library, holding exactly the artifacts of [done]; no other entry
    changed; and beyond creating that directory and calling the steps up to
    [s] nothing was done: no rename, no later step. *)
Theorem atomicity_on_failure (c : Remote) (book : Book) (kw : Kw.t) (w : world)
    (lib : gmap string node) (done rest : list step) (s : step) (e : exn) :
  fs w = Some lib →
  lib !! slug book = None ∨ Kw.redownload kw = true →
  plan c book kw = done ++ s :: rest →
  Forall (succeeds c book) done →
  step_result c book s = Fails e →
  ∃ i lib',
    fs (download_book c book kw w).2 = Some lib' ∧
    lib' !! slug book = lib !! slug book ∧
    lib !! tmp_name (slug book) i = None ∧
    lib' !! tmp_name (slug book) i = Some (Dir (artifacts c book done)) ∧
    (∀ name, name ≠ tmp_name (slug book) i → lib' !! name = lib !! name) ∧
    trace (download_book c book kw w).2 =
      trace w ++ EvMkdir (tmp_name (slug book) i) :: (EvCall <$> done ++ [s]).
Proof.
  intros Hfs Hstart Hplan Hdone Hs.
  destruct (download_book_fails c book kw w lib done rest s e)
    as (i & lg & Hfree & _ & ->); [done..|].
  eexists i, _. simpl. split_and!; [done| |done| | |done].
  - apply lookup_insert_ne, tmp_name_ne.
  - apply lookup_insert_eq.
  - intros name Hne. by apply lookup_insert_ne.
Qed.

(** C2 (commit or nothing).  The transaction has started and every step of
    the plan succeeds.  When the final directory is absent at the commit,
    the staging directory is renamed to it: [library_dir/slug] holds the
    artifacts of the plan and the staging name is gone.  When the final
    directory is there, the assertion raises instead: the existing entry
    stays as it is, the staging directory is kept beside it, and the
    failure goes through the [except] clause like any failed step (logged,
    then swallowed or raised again by [continue_on_error]).  The assertion
    stops the commit in whatever state of the library it finds the final
    directory. *)
Theorem commit_or_nothing (c : Remote) (book : Book) (kw : Kw.t) (w : world)
    (lib : gmap string node) :
  fs w = Some lib →
  lib !! slug book = None ∨ Kw.redownload kw = true →
  Forall (succeeds c book) (plan c book kw) →
  ∃ i lib',
    fs (download_book c book kw w).2 = Some lib' ∧
    lib !! tmp_name (slug book) i = None ∧
    (lib !! slug book = None →
       (download_book c book kw w).1 = Ret tt ∧
       lib' = <[slug book := Dir (artifacts c book (plan c book kw))]> lib ∧
       lib' !! slug book = Some (Dir (artifacts c book (plan c book kw))) ∧
       lib' !! tmp_name (slug book) i = None ∧
       trace (download_book c book kw w).2 =
         trace w ++ EvMkdir (tmp_name (slug book) i) ::
           (EvCall <$> plan c book kw) ++
           [EvRename (tmp_name (slug book) i) (slug book)]) ∧
    (is_Some (lib !! slug book) →
       (download_book c book kw w).1 = after_error kw AssertionError ∧
       lib' = <[tmp_name (slug book) i :=
                  Dir (artifacts c book (plan c book kw))]> lib ∧
       lib' !! slug book = lib !! slug book ∧
       (∃ lg, logs (download_book c book kw w).2 =
                logs w ++ lg ++
                error_report book kw (tmp_name (slug book) i) AssertionError) ∧
       trace (download_book c book kw w).2 =
         trace w ++ EvMkdir (tmp_name (slug book) i) ::
           (EvCall <$> plan c book kw)) ∧
    (∀ tmp w1 lib1, fs w1 = Some lib1 → is_Some (lib1 !! slug book) →
       commit tmp (slug book) w1 = (Raise AssertionError, w1)).
Proof.
  intros Hfs Hstart Hok.
  destruct (lib !! slug book) as [n|] eqn:Hslug.
  - destruct Hstart as [?| Hre]; [done|].
    destruct (download_book_race c book kw w lib)
      as (i & lg & Hfree & _ & ->); [by eauto..|].
    eexists i, _. simpl. split_and!; [done|done|done| |].
    + intros _. split_and!; [done|done| |by eauto|done].
      rewrite lookup_insert_ne; [done | apply tmp_name_ne].
    + intros. by eapply commit_taken.
  - destruct (download_book_commits c book kw w lib)
      as (i & lg & Hfree & _ & ->); [done..|].
    eexists i, _. simpl. split_and!; [done|done| | |].
    + intros _. split_and!; [done|done|apply lookup_insert_eq| |done].
      rewrite lookup_insert_ne; [done|]. intros H. symmetry in H.
      by apply tmp_name_ne in H.
    + by intros [??].
    + intros. by eapply commit_taken.
Qed.

(** C6 (skip idempotence).  Without [redownload], a book whose final
    directory exists is skipped: [download_book] returns at once, calls
    nothing on the remote service, creates no directory and leaves the
    library as it is; one log line is all it does.  So after a first
    invocation that committed the book, a second one downloads nothing. *)
Theorem skip_idempotence (c : Remote) (book : Book) (kw : Kw.t) :
  Kw.redownload kw = false →
  (∀ w lib, fs w = Some lib → is_Some (lib !! slug book) →
     download_book c book kw w =
     (Ret tt,
      World (fs w) (trace w)
        (logs w ++
         [(INFO, "Skipping “" +:+ title book +:+ "” – already downloaded.")]))) ∧
  (∀ w lib, fs w = Some lib → lib !! slug book = None →
     Forall (succeeds c book) (plan c book kw) →
     let first := download_book c book kw w in
     let second := download_book c book kw first.2 in
     first.1 = Ret tt ∧ second.1 = Ret tt ∧
     fs second.2 = fs first.2 ∧ trace second.2 = trace first.2).
Proof.
  intros Hre. split.
  - intros w lib Hfs Hthere. by eapply download_book_skips.
  - intros w lib Hfs Hnone Hok first second. subst second first.
    destruct (download_book_commits c book kw w lib)
      as (i & lg & _ & _ & ->); [done..|].
    simpl. erewrite download_book_skips; [done|done| |done].
    rewrite lookup_insert_eq. by eauto.
Qed.

(** C7 (pre-flight guard).  When the library directory does not exist,
    [download_book] raises at its first line, whatever [continue_on_error]
    and the other switches say: no skip check, no directory, no call on
    the remote service, no log line.  The loop of [main] does not catch
    the exception, so the run ends at the first book. *)
Theorem preflight_guard (c : Remote) (book : Book) (kw : Kw.t) (w : world) :
  fs w = None →
  download_book c book kw w = (Raise AssertionError, w) ∧
  (∀ rest, Kw.no_download kw = false →
     download_all c kw (book :: rest) w =
     (Raise AssertionError, announced book w)).
Proof.
  intros Hfs. split.
  - by apply download_book_no_library.
  - intros rest Hno. rewrite download_all_cons by done.
    by rewrite download_book_no_library.
Qed.

(** C8 (continue-on-error policy).  A started transaction fails with [e]:
    a step raises it, or the assertion before the rename does.  Then the
    log names the book by its title together with the error, and names
    the staging directory, which is kept; with [continue_on_error] the
    call returns and the loop of [main] goes on with the next book,
    without it the same [e] leaves [download_book] and ends the loop. *)
Theorem continue_on_error_policy (c : Remote) (book : Book) (kw : Kw.t)
    (w : world) (lib : gmap string node) (e : exn) :
  fs w = Some lib →
  lib !! slug book = None ∨ Kw.redownload kw = true →
  staging_fails c book kw lib e →
  ∃ i files lg,
    fs (download_book c book kw w).2 =
      Some (<[tmp_name (slug book) i := Dir files]> lib) ∧
    (download_book c book kw w).1 =
      (if Kw.continue_on_error kw then Ret tt else Raise e) ∧
    logs (download_book c book kw w).2 =
      logs w ++ lg ++
      [(ERROR, "Error downloading “" +:+ title book +:+ "”: " +:+ exn_str e);
       (INFO, "Keeping temporary output directory “" +:+
                tmp_name (slug book) i +:+ "”")] ++
      (if Kw.continue_on_error kw
       then [(INFO, "Continuing with next book… (--continue-on-error was set)")]
       else [(CRITICAL, "Exiting…");
             (CRITICAL, "Hint: Try using --continue-on-error.")]) ∧
    (∀ rest, Kw.no_download kw = false →
       download_all c kw (book :: rest) w =
       if Kw.continue_on_error kw
       then download_all c kw rest (download_book c book kw (announced book w)).2
       else (Raise e, (download_book c book kw (announced book w)).2)).
Proof.
  intros Hfs Hstart Hfail.
  assert (∀ w0, fs w0 = Some lib →
            ∃ i files lg, download_book c book kw w0 =
              (after_error kw e,
               World (Some (<[tmp_name (slug book) i := Dir files]> lib))
                     (trace w0 ++ EvMkdir (tmp_name (slug book) i) :: lg.1)
                     (logs w0 ++ lg.2 ++
                      error_report book kw (tmp_name (slug book) i) e)))
    as Hrun.
  { intros w0 Hfs0.
    destruct Hfail as [(done & s & rest & Hplan & Hdone & Hs)|(Hok & Hthere & ->)].
    - destruct (download_book_fails c book kw w0 lib done rest s e)
        as (i & lg & _ & _ & ->); [done..|].
      by exists i, (artifacts c book done), (EvCall <$> done ++ [s], lg).
    - destruct Hstart as [Hnone|Hre]; [rewrite Hnone in Hthere; by destruct Hthere|].
      destruct (download_book_race c book kw w0 lib)
        as (i & lg & _ & _ & ->); [done..|].
      by exists i, (artifacts c book (plan c book kw)),
                (EvCall <$> plan c book kw, lg). }
  destruct (Hrun w Hfs) as (i & files & lg & Hw).
  exists i, files, lg.2. rewrite Hw. simpl. split_and!; [done|done|done|].
  intros rest Hno. rewrite download_all_cons by done.
  destruct (Hrun (announced book w) Hfs) as (i' & files' & lg' & ->).
  unfold after_error. by destruct (Kw.continue_on_error kw).
Qed.

(** C10 (all artifact kinds disabled).  With [yaml], [markdown], [audio]
    and [cover] all off, a book without final directory, whose chapter
    list and chapters can be fetched, still gets a staging directory, still
    has both fetched from the remote service, and is committed: the
    library ends with an empty directory [library_dir/slug], which a later
    run without [redownload] skips as downloaded. *)
Theorem no_artifacts_still_commits (c : Remote) (book : Book) (kw : Kw.t)
    (w : world) (lib : gmap string node) :
  Kw.yaml kw = false → Kw.markdown kw = false →
  Kw.audio kw = false → Kw.cover kw = false →
  fs w = Some lib →
  lib !! slug book = None →
  succeeds c book ChapterList → succeeds c book Chapters →
  ∃ i,
    lib !! tmp_name (slug book) i = None ∧
    (download_book c book kw w).1 = Ret tt ∧
    fs (download_book c book kw w).2 = Some (<[slug book := Dir []]> lib) ∧
    trace (download_book c book kw w).2 =
      trace w ++ [EvMkdir (tmp_name (slug book) i);
                  EvCall ChapterList; EvCall Chapters;
                  EvRename (tmp_name (slug book) i) (slug book)] ∧
    (Kw.redownload kw = false →
       (download_book c book kw (download_book c book kw w).2).1 = Ret tt ∧
       fs (download_book c book kw (download_book c book kw w).2).2 =
         Some (<[slug book := Dir []]> lib) ∧
       trace (download_book c book kw (download_book c book kw w).2).2 =
         trace (download_book c book kw w).2).
Proof.
  intros Hy Hm Ha Hc Hfs Hnone Hcl Hch.
  assert (plan c book kw = [ChapterList; Chapters]) as Hplan.
  { unfold plan. by rewrite Hy, Hm, Ha, Hc. }
  assert (artifacts c book (plan c book kw) = []) as Hart.
  { rewrite Hplan. unfold artifacts, succeeds, step_result in *. simpl.
    destruct Hcl as [? Hcl], Hch as [? Hch].
    by destruct (chapter_list c book), (chapters c book). }
  destruct (download_book_commits c book kw w lib)
    as (i & lg & Hfree & _ & Hrun); [done|done| |].
  { rewrite Hplan. by repeat constructor. }
  rewrite Hart, Hplan in Hrun. rewrite Hrun. simpl.
  exists i. split_and!; [done..|].
  intros Hre. erewrite download_book_skips; [done|done| |done].
  rewrite lookup_insert_eq. by eauto.
Qed.

(** ** Sets of books *)

Lemma existsb_Book_eqb (b : Book) (s : list Book) :
  existsb (Book_eqb b) s = true ↔ slug b ∈ slug <$> s.
Proof.
  rewrite existsb_exists, list_elem_of_fmap. unfold Book_eqb.
  split; intros (x & H1 & H2).
  - exists x. split; [by apply bool_decide_eq_true in H2 | by apply list_elem_of_In].
  - exists x. split; [by apply list_elem_of_In | by apply bool_decide_eq_true].
Qed.

Lemma set_add_old (b : Book) (s : list Book) :
  slug b ∈ slug <$> s → set_add s b = s.
Proof. intros H. unfold set_add. by apply existsb_Book_eqb in H as ->. Qed.

Lemma set_add_new (b : Book) (s : list Book) :
  slug b ∉ slug <$> s → set_add s b = s ++ [b].
Proof.
  intros H. unfold set_add.
  destruct (existsb (Book_eqb b) s) eqn:E; [|done].
  by apply existsb_Book_eqb in E.
Qed.

Lemma set_add_NoDup (b : Book) (s : list Book) :
  NoDup (slug <$> s) → NoDup (slug <$> set_add s b).
Proof.
  intros Hs. destruct (decide (slug b ∈ slug <$> s)) as [Hin|Hout].
  - by rewrite set_add_old.
  - rewrite set_add_new, fmap_app by done. apply NoDup_app.
    split_and!; [done| |apply NoDup_singleton].
    intros x Hx ->%list_elem_of_singleton. done.
Qed.

Lemma foldl_set_add_NoDup (l s : list Book) :
  NoDup (slug <$> s) → NoDup (slug <$> foldl set_add s l).
Proof.
  revert s. induction l as [|b l IH]; intros s Hs; simpl; [done|].
  by apply IH, set_add_NoDup.
Qed.

Lemma set_of_NoDup (l : list Book) : NoDup (slug <$> set_of l).
Proof. apply foldl_set_add_NoDup. constructor. Qed.

(** Adding books with distinct identifiers appends those whose identifier
    the set did not have, whatever the order they come in. *)
Lemma foldl_set_add_perm (l s : list Book) :
  NoDup (slug <$> l) →
  foldl set_add s l ≡ₚ s ++ filter (λ b, slug b ∉ slug <$> s) l.
Proof.
  revert s. induction l as [|b l IH]; intros s Hl; simpl.
  - by rewrite app_nil_r.
  - rewrite fmap_cons in Hl. apply NoDup_cons in Hl as [Hb Hl].
    rewrite IH by done.
    destruct (decide (slug b ∈ slug <$> s)) as [Hin|Hout].
    + rewrite set_add_old, filter_cons_False by (done || tauto). done.
    + rewrite set_add_new, filter_cons_True by done.
      rewrite <-app_assoc. simpl. do 2 f_equiv.
      assert (Forall (λ x, slug x ∉ slug <$> s ++ [b] ↔ slug x ∉ slug <$> s) l)
        as Hiff.
      { apply Forall_forall. intros x Hx.
        rewrite fmap_app, elem_of_app. simpl. rewrite list_elem_of_singleton.
        split; [tauto|]. intros Hs [?|Heq]; [done|].
        apply Hb. rewrite <-Heq. by apply list_elem_of_fmap_2. }
      clear -Hiff. induction Hiff as [|x l Hx _ IH']; [done|].
      destruct (decide (slug x ∉ slug <$> s)).
      * rewrite !filter_cons_True by tauto. by f_equiv.
      * rewrite !filter_cons_False by tauto. done.
Qed.

Lemma same_set_NoDup_r (s1 s2 : list Book) :
  same_set s1 s2 → NoDup (slug <$> s2).
Proof. intros [Hnd Hp]. by rewrite <-Hp. Qed.

Lemma same_set_nil : same_set [] [].
Proof. split; [constructor | done]. Qed.

Lemma same_set_add (b : Book) (s1 s2 : list Book) :
  same_set s1 s2 → same_set (set_add s1 b) (set_add s2 b).
Proof.
  intros [Hnd Hp]. split; [by apply set_add_NoDup|].
  destruct (decide (slug b ∈ slug <$> s1)) as [Hin|Hout].
  - rewrite !set_add_old; [done| |done]. by rewrite <-Hp.
  - rewrite !set_add_new; [by rewrite Hp| |done]. by rewrite <-Hp.
Qed.

Lemma same_set_update (it1 it2 : SetOrder) (s1 s2 t : list Book) :
  NoDup (slug <$> t) → same_set s1 s2 →
  same_set (set_update it1 s1 t) (set_update it2 s2 t).
Proof.
  intros Ht [Hnd Hp]. split; [by apply foldl_set_add_NoDup|].
  unfold set_update.
  rewrite !foldl_set_add_perm by (by rewrite iterate_perm).
  rewrite !iterate_perm, Hp. f_equiv.
  erewrite list_filter_iff; [done|]. intros x. simpl. by rewrite Hp.
Qed.

(** ** Two runs of [gather] *)

Lemma res_rel_bind {A B} (R : A → A → Prop) (R' : B → B → Prop)
    (m1 m2 : res A) (k1 k2 : A → res B) :
  res_rel R m1 m2 →
  (∀ a1 a2, R a1 a2 → res_rel R' (k1 a1) (k2 a2)) →
  res_rel R' (m1 ≫= k1) (m2 ≫= k2).
Proof.
  destruct m1 as [a1|e1], m2 as [a2|e2]; simpl; try done.
  intros HR Hk. by apply Hk.
Qed.

Lemma res_rel_refl_bind {A B} (R' : B → B → Prop) (m : res A) (k1 k2 : A → res B) :
  (∀ a, res_rel R' (k1 a) (k2 a)) → res_rel R' (m ≫= k1) (m ≫= k2).
Proof. destruct m as [a|e]; simpl; [by intros Hk | done]. Qed.

Lemma res_rel_fold {A B} (R : A → A → Prop) (f1 f2 : A → B → res A)
    (xs : list B) (a1 a2 : A) :
  (∀ a1 a2 x, R a1 a2 → res_rel R (f1 a1 x) (f2 a2 x)) →
  R a1 a2 → res_rel R (res_fold f1 a1 xs) (res_fold f2 a2 xs).
Proof.
  intros Hf. revert a1 a2. induction xs as [|x xs IH]; intros a1 a2 HR; simpl.
  - done.
  - eapply res_rel_bind; [by apply Hf | apply IH].
Qed.

Section TwoRuns.
Variables (it1 it2 : SetOrder) (R : list Book → list Book → Prop).
Hypothesis R_nil : R [] [].
Hypothesis R_add : ∀ b s1 s2, R s1 s2 → R (set_add s1 b) (set_add s2 b).
Hypothesis R_update : ∀ bs s1 s2,
  R s1 s2 → R (set_update it1 s1 (set_of bs)) (set_update it2 s2 (set_of bs)).

Lemma collections_rel (cs : list Collection) (s1 s2 : list Book) :
  R s1 s2 →
  R (foldl (λ s c, set_update it1 s (set_of (books c))) s1 cs)
    (foldl (λ s c, set_update it2 s (set_of (books c))) s2 cs).
Proof.
  revert s1 s2. induction cs as [|c cs IH]; intros s1 s2 Hs; simpl; [done|].
  by apply IH, R_update.
Qed.

(** A relation between the sets of two runs that the set operations keep
    holds of what the two runs gather, and the two fail alike. *)
Lemma gather_rel (d : Discovery) (LANGUAGES : list string) (kw : Kw.t) :
  res_rel R (gather d LANGUAGES it1 kw) (gather d LANGUAGES it2 kw).
Proof.
  unfold gather.
  eapply (res_rel_bind R).
  { destruct (truthy (Kw.book_slug kw)); [|apply R_nil].
    apply res_rel_refl_bind. intros b. apply R_add, R_nil. }
  intros s1 s1' Hs1. eapply (res_rel_bind R).
  { destruct (Kw.latest_collections kw); [|done].
    apply res_rel_refl_bind. intros cs. by apply collections_rel. }
  clear s1 s1' Hs1. intros s1 s1' Hs1. eapply (res_rel_bind R).
  { destruct (Kw.freedaily kw); [|done].
    apply res_rel_fold; [|done]. intros a1 a2 l Ha.
    apply res_rel_refl_bind. intros b. by apply R_add. }
  clear s1 s1' Hs1. intros s1 s1' Hs1. eapply (res_rel_bind R).
  { destruct (truthy (Kw.search kw)); [|done].
    apply res_rel_refl_bind. intros bs. by apply R_update. }
  clear s1 s1' Hs1. intros s1 s1' Hs1. eapply (res_rel_bind R).
  { destruct (Kw.latest kw); [|done].
    apply res_rel_refl_bind. intros bs. by apply R_update. }
  clear s1 s1' Hs1. intros s1 s1' Hs1.
  destruct (Kw.trending kw); [|done].
  apply res_rel_refl_bind. intros bs. by apply R_update.
Qed.
End TwoRuns.

(** Whatever the iteration orders of two runs, the directives fail alike
    or gather the same books. *)
Lemma gather_same (d : Discovery) (LANGUAGES : list string) (it1 it2 : SetOrder)
    (kw : Kw.t) :
  res_rel same_set (gather d LANGUAGES it1 kw) (gather d LANGUAGES it2 kw).
Proof.
  apply gather_rel.
  - apply same_set_nil.
  - intros. by apply same_set_add.
  - intros. apply same_set_update; [apply set_of_NoDup | done].
Qed.

(** Runs that iterate sets alike gather the same set, in the same order of
    insertion. *)
Lemma gather_eq (d : Discovery) (LANGUAGES : list string) (it1 it2 : SetOrder)
    (kw : Kw.t) :
  (∀ s, iterate it1 s = iterate it2 s) →
  res_rel eq (gather d LANGUAGES it1 kw) (gather d LANGUAGES it2 kw).
Proof.
  intros Hit. apply gather_rel.
  - done.
  - by intros b s1 s2 ->.
  - intros bs s1 s2 ->. unfold set_update. by rewrite Hit.
Qed.

Lemma gather_NoDup (d : Discovery) (LANGUAGES : list string) (it : SetOrder)
    (kw : Kw.t) (s : list Book) :
  gather d LANGUAGES it kw = Done s → NoDup (slug <$> s).
Proof.
  intros H. pose proof (gather_same d LANGUAGES it it kw) as Hrel.
  rewrite H in Hrel. by destruct Hrel.
Qed.

(** ** The list after filter and limit *)

Lemma slice_to_sublist {A} (xs : list A) (n : Z) : slice_to xs n `sublist_of` xs.
Proof. unfold slice_to. case_decide; apply sublist_take. Qed.

Lemma limit_books_sublist (limit : option Z) (xs : list Book) :
  limit_books limit xs `sublist_of` xs.
Proof.
  destruct limit as [n|]; simpl; [|done].
  case_decide; [done | apply slice_to_sublist].
Qed.

Lemma limit_books_length (limit : option Z) (xs ys : list Book) :
  length xs = length ys →
  length (limit_books limit xs) = length (limit_books limit ys).
Proof.
  intros Hlen. destruct limit as [n|]; simpl; [|done].
  case_decide; [done|]. unfold slice_to.
  case_decide; rewrite !length_take, Hlen; done.
Qed.

Lemma filter_languages_sublist (langs : list string) (it : SetOrder)
    (s : list Book) :
  filter_languages langs it s `sublist_of` iterate it s.
Proof. apply sublist_filter. Qed.

Lemma books_to_download_Done (d : Discovery) (LANGUAGES : list string)
    (it : SetOrder) (kw : Kw.t) (jobs : list Book) :
  books_to_download d LANGUAGES it kw = Done jobs →
  ∃ s, gather d LANGUAGES it kw = Done s ∧
       jobs = limit_books (Kw.limit kw)
                (filter_languages (languages_to_download LANGUAGES kw) it s).
Proof.
  unfold books_to_download. destruct (gather d LANGUAGES it kw) as [s|e]; simpl.
  - intros [= <-]. by exists s.
  - done.
Qed.

(** ** The claims on the resolved list *)

(** C3 (deduplication).  Whatever directives are switched on and whatever
    they return, the list handed to the download loop holds each
    identifier at most once. *)
Theorem deduplication (d : Discovery) (LANGUAGES : list string) (it : SetOrder)
    (kw : Kw.t) (jobs : list Book) :
  books_to_download d LANGUAGES it kw = Done jobs →
  NoDup (slug <$> jobs).
Proof.
  intros (s & Hs & ->)%books_to_download_Done.
  apply gather_NoDup in Hs.
  eapply sublist_NoDup; [|apply fmap_sublist, limit_books_sublist].
  eapply sublist_NoDup; [|apply fmap_sublist, filter_languages_sublist].
  by rewrite iterate_perm.
Qed.


(** C5 (limit truncation).  On any filtered list, a limit [n > 0] keeps
    the first [n] books, [min n available] of them; the limit [0] keeps
    them all.  The resolved list is the gathered set, iterated, filtered
    and cut in this way. *)
Theorem limit_truncation (xs : list Book) (n : Z) :
  ((0 < n)%Z →
     limit_books (Some n) xs = take (Z.to_nat n) xs ∧
     length (limit_books (Some n) xs) = Z.to_nat n `min` length xs) ∧
  limit_books (Some 0%Z) xs = xs ∧
  (∀ d LANGUAGES it kw s,
     gather d LANGUAGES it kw = Done s →
     books_to_download d LANGUAGES it kw =
     Done (limit_books (Kw.limit kw)
             (filter_languages (languages_to_download LANGUAGES kw) it s))).
Proof.
  split_and!.
  - intros Hn. unfold limit_books, slice_to.
    rewrite decide_False, decide_True by lia.
    split; [done | apply length_take].
  - done.
  - intros d LANGUAGES it kw s Hs. unfold books_to_download. by rewrite Hs.
Qed.

(** C9, amended (order of the resolved list).  Over the same directive
    results two runs fail alike or resolve lists of the same length;
    without a limit the two lists hold the same jobs, up to order; and
    they are the same list when the two runs iterate sets alike. *)
Theorem resolved_up_to_order (d : Discovery) (LANGUAGES : list string)
    (it1 it2 : SetOrder) (kw : Kw.t) :
  res_rel (λ jobs1 jobs2,
             length jobs1 = length jobs2 ∧
             (Kw.limit kw = None ∨ Kw.limit kw = Some 0%Z → jobs1 ≡ₚ jobs2) ∧
             ((∀ s, iterate it1 s = iterate it2 s) → jobs1 = jobs2))
    (books_to_download d LANGUAGES it1 kw)
    (books_to_download d LANGUAGES it2 kw).
Proof.
  unfold books_to_download.
  pose proof (gather_same d LANGUAGES it1 it2 kw) as Hsame.
  pose proof (gather_eq d LANGUAGES it1 it2 kw) as Heq.
  destruct (gather d LANGUAGES it1 kw) as [s1|e1],
           (gather d LANGUAGES it2 kw) as [s2|e2]; simpl in *; try done.
  destruct Hsame as [_ Hp].
  assert (filter_languages (languages_to_download LANGUAGES kw) it1 s1 ≡ₚ
          filter_languages (languages_to_download LANGUAGES kw) it2 s2) as Hf.
  { unfold filter_languages. by rewrite !iterate_perm, Hp. }
  split_and!.
  - apply limit_books_length. by rewrite Hf.
  - by intros [-> | ->].
  - intros Hit. rewrite (Heq Hit). unfold filter_languages. by rewrite Hit.
Qed.

(** ** Where the code departs from C4 and C9 *)


(** The same happens whatever the configured list is: some language is
    outside it, and a book in that language is dropped. *)
Lemma some_language_dropped (LANGUAGES : list string) :
  ∃ d, ¬ keeps_every_language d LANGUAGES Sample.insertion_order Sample.kw_slug.
Proof.
  set (b := mkBook "libro" "Libro" (fresh LANGUAGES) true).
  exists (mkDiscovery (Done tt) (λ _, Done b) (Done []) (λ _, Done b)
            (λ _ _ _, Done []) (λ _, Done []) (λ _, Done [])).
  intros H. specialize (H eq_refl [b] eq_refl b).
  assert (b ∈ [b]) as Hin by constructor.
  apply H in Hin. unfold filter_languages in Hin.
  apply list_elem_of_filter in Hin as [Hlang _].
  by apply infinite_is_fresh in Hlang.
Qed.

(** C9, as stated, fails: [--freedaily --limit 1] gathers [alpha] and
    [beta]; a run that iterates the set in insertion order keeps [alpha],
    a run that iterates it the other way round keeps [beta]. *)
Lemma limit_follows_iteration_order :
  ¬ same_order_every_run Sample.discovery Sample.LANGUAGES Sample.kw_limit1.
Proof.
  intros H.
  assert (books_to_download Sample.discovery Sample.LANGUAGES
            Sample.insertion_order Sample.kw_limit1 = Done [Sample.alpha]) as H1
    by (vm_compute; reflexivity).
  assert (books_to_download Sample.discovery Sample.LANGUAGES
            Sample.opposite_order Sample.kw_limit1 = Done [Sample.beta]) as H2
    by (vm_compute; reflexivity).
  specialize (H _ _ _ _ H1 H2). discriminate H.
Qed.

(** ** The claims on sample runs *)

(** The audio of chapter [c2] fails for [alpha] while [alpha.tmp] is a
    stale leftover: [alpha] is not created, [alpha.tmp1] keeps the YAML,
    the text and the audio of [c1]. *)
Lemma atomicity_on_failure_witness :
  ∃ i lib',
    fs (download_book Sample.remote_audio_fails Sample.alpha Sample.kw_default
          Sample.stale_library).2 = Some lib' ∧
    lib' !! "alpha" = None ∧
    lib' !! tmp_name "alpha" i = Some (Dir ["book.yaml"; "book.md"; "c1.m4a"]).
Proof.
  destruct (atomicity_on_failure Sample.remote_audio_fails Sample.alpha
              Sample.kw_default Sample.stale_library
              {[ "alpha.tmp" := Dir ["book.yaml"] ]}
              [ChapterList; Chapters; RawYaml; TextMd; Audio "c1"] [Cover]
              (Audio "c2") Sample.timed_out)
    as (i & lib' & H1 & H2 & _ & H4 & _).
  - reflexivity.
  - left. reflexivity.
  - reflexivity.
  - repeat constructor; eexists; reflexivity.
  - reflexivity.
  - exists i, lib'. split; [exact H1|]. split; [exact H2 | exact H4].
Defined.

(** Every step succeeds for [alpha] in the library with the stale
    [alpha.tmp]: the book is committed under [alpha] with all its files. *)
Lemma commit_or_nothing_witness :
  ∃ lib',
    fs (download_book Sample.remote_ok Sample.alpha Sample.kw_default
          Sample.stale_library).2 = Some lib' ∧
    lib' !! "alpha" =
      Some (Dir ["book.yaml"; "book.md"; "c1.m4a"; "c2.m4a"; "cover.jpg"]).
Proof.
  destruct (commit_or_nothing Sample.remote_ok Sample.alpha Sample.kw_default
              Sample.stale_library {[ "alpha.tmp" := Dir ["book.yaml"] ]})
    as (i & lib' & H1 & _ & Hcommit & _).
  - reflexivity.
  - left. reflexivity.
  - repeat constructor; eexists; reflexivity.
  - exists lib'. split; [exact H1|].
    destruct Hcommit as (_ & _ & H3 & _); [reflexivity | exact H3].
Defined.

(** The collection and the trending list both hold [alpha] and [beta]:
    each is resolved once. *)
Lemma deduplication_witness : NoDup (slug <$> [Sample.beta; Sample.alpha]).
Proof.
  apply (deduplication Sample.discovery Sample.LANGUAGES Sample.insertion_order
           Sample.kw_overlap).
  vm_compute. reflexivity.
Defined.


(** The limit 1 keeps the first of two books. *)
Lemma limit_truncation_witness :
  limit_books (Some 1%Z) [Sample.alpha; Sample.beta] = [Sample.alpha] ∧
  length (limit_books (Some 1%Z) [Sample.alpha; Sample.beta]) = 1.
Proof.
  destruct (limit_truncation [Sample.alpha; Sample.beta] 1) as [Hpos _].
  destruct Hpos as [H1 H2]; [reflexivity|]. split; [exact H1 | exact H2].
Defined.

(** [alpha] is in the library: the call logs one line and changes nothing
    else. *)
Lemma skip_idempotence_witness :
  download_book Sample.remote_ok Sample.alpha Sample.kw_default
    Sample.full_library =
  (Ret tt,
   World (fs Sample.full_library) []
     [(INFO, "Skipping “Alpha” – already downloaded.")]).
Proof.
  destruct (skip_idempotence Sample.remote_ok Sample.alpha Sample.kw_default)
    as [Hskip _]; [reflexivity|].
  apply (Hskip Sample.full_library {[ "alpha" := Dir ["book.yaml"] ]}).
  - reflexivity.
  - exists (Dir ["book.yaml"]). reflexivity.
Defined.

(** Without library directory the call raises and leaves no mark, also
    under [--continue-on-error]. *)
Lemma preflight_guard_witness :
  download_book Sample.remote_ok Sample.alpha Sample.kw_continue
    Sample.no_library = (Raise AssertionError, Sample.no_library).
Proof.
  destruct (preflight_guard Sample.remote_ok Sample.alpha Sample.kw_continue
              Sample.no_library) as [Hraise _]; [reflexivity | exact Hraise].
Defined.

(** Under [--continue-on-error] the failed audio of [alpha] is logged and
    the call returns. *)
Lemma continue_on_error_policy_witness :
  (download_book Sample.remote_audio_fails Sample.alpha Sample.kw_continue
     Sample.empty_library).1 = Ret tt.
Proof.
  destruct (continue_on_error_policy Sample.remote_audio_fails Sample.alpha
              Sample.kw_continue Sample.empty_library ∅ Sample.timed_out)
    as (i & files & lg & _ & Hret & _).
  - reflexivity.
  - left. reflexivity.
  - left. exists [ChapterList; Chapters; RawYaml; TextMd; Audio "c1"],
            (Audio "c2"), [Cover].
    split; [reflexivity|]. split; [|reflexivity].
    repeat constructor; eexists; reflexivity.
  - exact Hret.
Defined.

(** Without a limit the two iteration orders resolve lists of the same
    length. *)
Lemma resolved_up_to_order_witness :
  res_rel (λ jobs1 jobs2 : list Book, length jobs1 = length jobs2)
    (books_to_download Sample.discovery Sample.LANGUAGES
       Sample.insertion_order Sample.kw_limit1)
    (books_to_download Sample.discovery Sample.LANGUAGES
       Sample.opposite_order Sample.kw_limit1).
Proof.
  pose proof (resolved_up_to_order Sample.discovery Sample.LANGUAGES
                Sample.insertion_order Sample.opposite_order Sample.kw_limit1)
    as H.
  destruct (books_to_download Sample.discovery Sample.LANGUAGES
              Sample.insertion_order Sample.kw_limit1),
           (books_to_download Sample.discovery Sample.LANGUAGES
              Sample.opposite_order Sample.kw_limit1); simpl in *;
    [exact (proj1 H) | exact H..].
Defined.

(** With every artifact kind off, [alpha] is committed as an empty
    directory. *)
Lemma no_artifacts_still_commits_witness :
  fs (download_book Sample.remote_ok Sample.alpha Sample.kw_nothing
        Sample.empty_library).2 = Some {[ "alpha" := Dir [] ]}.
Proof.
  destruct (no_artifacts_still_commits Sample.remote_ok Sample.alpha
              Sample.kw_nothing Sample.empty_library ∅)
    as (i & _ & _ & Hfs & _).
  - reflexivity.
  - reflexivity.
  - reflexivity.
  - reflexivity.
  - reflexivity.
  - reflexivity.
  - eexists. reflexivity.
  - eexists. reflexivity.
  - exact Hfs.
Defined.

(** * Further properties *)

(** ** Every outcome of a transaction *)

(** The steps of a list all succeed, or there is a first one that raises. *)
Lemma first_failure (c : Remote) (book : Book) (steps : list step) :
  Forall (succeeds c book) steps ∨
  ∃ done s rest e, steps = done ++ s :: rest ∧
                   Forall (succeeds c book) done ∧
                   step_result c book s = Fails e.
Proof.
  induction steps as [|s steps IH]; [by left|].
  destruct (step_result c book s) as [files|e] eqn:Hs.
  - destruct IH as [Hok|(done & s' & rest & e & -> & Hdone & Hs')].
    + left. constructor; [by exists files | done].
    + right. exists (s :: done), s', rest, e.
      split_and!; [done| |done]. constructor; [by exists files | done].
  - right. by exists [], s, steps, e.
Qed.

Lemma artifacts_app (c : Remote) (book : Book) (s1 s2 : list step) :
  artifacts c book (s1 ++ s2) = artifacts c book s1 ++ artifacts c book s2.
Proof. unfold artifacts. apply bind_app. Qed.

Lemma artifacts_failed (c : Remote) (book : Book) (s : step) (e : exn) :
  step_result c book s = Fails e → artifacts c book [s] = [].
Proof. intros Hs. unfold artifacts. simpl. by rewrite Hs. Qed.

(** A started transaction ends in one of two ways: the book is committed
    after the whole plan ran, or an initial part [called] of the plan ran
    and the staging directory is kept with what it produced. *)
Lemma download_book_outcome (c : Remote) (book : Book) (kw : Kw.t) (w : world)
    (lib : gmap string node) :
  fs w = Some lib →
  lib !! slug book = None ∨ Kw.redownload kw = true →
  ∃ i lg,
    lib !! tmp_name (slug book) i = None ∧
    (∀ k : nat, k < i → is_Some (lib !! tmp_name (slug book) k)) ∧
    ((lib !! slug book = None ∧
      Forall (succeeds c book) (plan c book kw) ∧
      download_book c book kw w =
      (Ret tt,
       World (Some (<[slug book := Dir (artifacts c book (plan c book kw))]> lib))
             (trace w ++ EvMkdir (tmp_name (slug book) i) ::
                (EvCall <$> plan c book kw) ++
                [EvRename (tmp_name (slug book) i) (slug book)])
             (logs w ++ lg)))
     ∨
     (∃ called e,
        called `prefix_of` plan c book kw ∧
        download_book c book kw w =
        (after_error kw e,
         World (Some (<[tmp_name (slug book) i := Dir (artifacts c book called)]> lib))
               (trace w ++ EvMkdir (tmp_name (slug book) i) :: (EvCall <$> called))
               (logs w ++ lg ++ error_report book kw (tmp_name (slug book) i) e)))).
Proof.
  intros Hfs Hstart.
  destruct (first_failure c book (plan c book kw))
    as [Hok|(done & s & rest & e & Hplan & Hdone & Hs)].
  - destruct (lib !! slug book) as [n|] eqn:Hslug.
    + destruct Hstart as [?|Hre]; [done|].
      destruct (download_book_race c book kw w lib)
        as (i & lg & Hfree & Hleast & Hrun); [by eauto..|].
      exists i, lg. split_and!; [done..|]. right.
      by exists (plan c book kw), AssertionError.
    + destruct (download_book_commits c book kw w lib)
        as (i & lg & Hfree & Hleast & Hrun); [done..|].
      exists i, lg. split_and!; [done..|]. by left.
  - destruct (download_book_fails c book kw w lib done rest s e)
      as (i & lg & Hfree & Hleast & Hrun); [done..|].
    exists i, lg. split_and!; [done..|]. right.
    exists (done ++ [s]), e. split.
    + exists rest. by rewrite Hplan, <-app_assoc.
    + by rewrite artifacts_app, (artifacts_failed _ _ _ e), app_nil_r.
Qed.

(** X1.  A started transaction stages in the first free name of the
    sequence [slug.tmp], [slug.tmp1], [slug.tmp2], ...: the name it creates
    was free, every earlier name of the sequence is taken, the search needs
    no more rounds than the library has entries, and creating that
    directory is the first thing the transaction does. *)
Theorem staging_directory_first_free (c : Remote) (book : Book) (kw : Kw.t)
    (w : world) (lib : gmap string node) :
  fs w = Some lib →
  lib !! slug book = None ∨ Kw.redownload kw = true →
  ∃ i rest,
    i ≤ size lib ∧
    lib !! tmp_name (slug book) i = None ∧
    (∀ k : nat, k < i → is_Some (lib !! tmp_name (slug book) k)) ∧
    trace (download_book c book kw w).2 =
      trace w ++ EvMkdir (tmp_name (slug book) i) :: rest ∧
    (∀ name, EvMkdir name ∈ rest → False).
Proof.
  intros Hfs Hstart.
  destruct (download_book_outcome c book kw w lib Hfs Hstart)
    as (i & lg & Hfree & Hleast & [(_ & _ & ->)|(called & e & _ & ->)]).
  - eexists i, _. cbn [snd trace]. split_and!; [|done|done|done|].
    + by apply (tmp_names_bounded (slug book)).
    + intros name [Hin|Hin]%elem_of_app.
      * apply list_elem_of_fmap in Hin as (? & ? & _). done.
      * by apply list_elem_of_singleton in Hin.
  - eexists i, _. cbn [snd trace]. split_and!; [|done|done|done|].
    + by apply (tmp_names_bounded (slug book)).
    + intros name Hin. apply list_elem_of_fmap in Hin as (? & ? & _). done.
Qed.

(** X2.  Whatever happens, [download_book] adds at most one entry to the
    library and leaves every entry that was there as it was: nothing is
    deleted, overwritten or written into.  The new entry, if any, is the
    committed book or a kept staging directory. *)
Theorem library_only_grows (c : Remote) (book : Book) (kw : Kw.t)
    (w : world) (lib : gmap string node) :
  fs w = Some lib →
  ∃ lib',
    fs (download_book c book kw w).2 = Some lib' ∧
    lib ⊆ lib' ∧
    (lib' = lib ∨
     ∃ name files, lib !! name = None ∧ lib' = <[name := Dir files]> lib ∧
                   (name = slug book ∨ ∃ i, name = tmp_name (slug book) i)).
Proof.
  intros Hfs.
  destruct (decide (lib !! slug book = None ∨ Kw.redownload kw = true))
    as [Hstart|Hskip].
  - destruct (download_book_outcome c book kw w lib Hfs Hstart)
      as (i & lg & Hfree & _ & [(Hnone & _ & ->)|(called & e & _ & ->)]).
    + eexists. simpl. split_and!; [done|by apply insert_subseteq|].
      right. eexists _, _. split_and!; [done|done|by left].
    + eexists. simpl. split_and!; [done|by apply insert_subseteq|].
      right. eexists _, _. split_and!; [done|done|right; by exists i].
  - erewrite download_book_skips; [|done| |].
    + exists lib. simpl. split_and!; [done|done|by left].
    + destruct (lib !! slug book); [by eauto | tauto].
    + destruct (Kw.redownload kw); [tauto | done].
Qed.

(** X3.  The calls of a started transaction follow the plan: after the
    staging directory is made, an initial part of the plan is called, in
    order and without repeating a step of the plan, and the only thing
    that can follow is the rename of a commit, which comes after the whole
    plan.  The chapter list and the chapters are fetched first and once. *)
Theorem calls_follow_plan (c : Remote) (book : Book) (kw : Kw.t)
    (w : world) (lib : gmap string node) :
  fs w = Some lib →
  lib !! slug book = None ∨ Kw.redownload kw = true →
  ∃ i called,
    called `prefix_of` plan c book kw ∧
    take 2 (plan c book kw) = [ChapterList; Chapters] ∧
    (∀ s, s ∈ drop 2 (plan c book kw) → s ≠ ChapterList ∧ s ≠ Chapters) ∧
    (trace (download_book c book kw w).2 =
       trace w ++ EvMkdir (tmp_name (slug book) i) :: (EvCall <$> called)
     ∨ (called = plan c book kw ∧
        trace (download_book c book kw w).2 =
          trace w ++ EvMkdir (tmp_name (slug book) i) :: (EvCall <$> called) ++
            [EvRename (tmp_name (slug book) i) (slug book)])).
Proof.
  intros Hfs Hstart.
  assert (∀ s, s ∈ drop 2 (plan c book kw) → s ≠ ChapterList ∧ s ≠ Chapters)
    as Hlater.
  { unfold plan. simpl. intros s Hs.
    repeat (apply elem_of_app in Hs as [Hs|Hs]).
    - destruct (Kw.yaml kw); [|by apply not_elem_of_nil in Hs].
      by apply list_elem_of_singleton in Hs as ->.
    - destruct (Kw.markdown kw); [|by apply not_elem_of_nil in Hs].
      by apply list_elem_of_singleton in Hs as ->.
    - destruct (Kw.audio kw && is_audio book); [|by apply not_elem_of_nil in Hs].
      by apply list_elem_of_fmap in Hs as (ch & -> & _).
    - destruct (Kw.cover kw); [|by apply not_elem_of_nil in Hs].
      by apply list_elem_of_singleton in Hs as ->. }
  destruct (download_book_outcome c book kw w lib Hfs Hstart)
    as (i & lg & _ & _ & [(_ & _ & ->)|(called & e & Hpre & ->)]).
  - exists i, (plan c book kw). split_and!; [done|done|done|]. right. done.
  - exists i, called. split_and!; [done|done|done|]. by left.
Qed.

(** ** The loop and [main] *)

Lemma download_all_step (c : Remote) (kw : Kw.t) (book : Book) (rest : list Book)
    (w : world) :
  download_all c kw (book :: rest) w =
  match when (negb (Kw.no_download kw)) (download_book c book kw)
          (announced book w) with
  | (Ret _, w') => download_all c kw rest w'
  | (Raise e, w') => (Raise e, w')
  | (Diverge, w') => (Diverge, w')
  end.
Proof.
  unfold download_all. simpl. unfold bind at 1 2, log. fold (announced book w).
  by destruct (when _ _ (announced book w)) as [[[]|?|] ?].
Qed.


Lemma login_check_frame (d : Discovery) (kw : Kw.t) (w : world) :
  fs (login_check d kw w).2 = fs w.
Proof.
  unfold login_check, when. destruct (Kw.logincheck kw); [|done].
  by destruct (get_me d).
Qed.

(** One call of [download_book] keeps what the library has. *)
Lemma download_book_keeps (c : Remote) (book : Book) (kw : Kw.t) (w : world)
    (lib : gmap string node) :
  fs w = Some lib →
  ∃ lib', fs (download_book c book kw w).2 = Some lib' ∧ lib ⊆ lib'.
Proof.
  intros Hfs.
  destruct (decide (lib !! slug book = None ∨ Kw.redownload kw = true))
    as [Hstart|Hskip].
  - destruct (download_book_outcome c book kw w lib Hfs Hstart)
      as (i & lg & Hfree & _ & [(Hnone & _ & ->)|(called & e & _ & ->)]);
      eexists; (split; [done | by apply insert_subseteq]).
  - erewrite download_book_skips; [by exists lib|done| |].
    + destruct (lib !! slug book); [by eauto | tauto].
    + destruct (Kw.redownload kw); [tauto | done].
Qed.

Lemma download_all_keeps (c : Remote) (kw : Kw.t) (jobs : list Book) (w : world)
    (lib : gmap string node) :
  fs w = Some lib →
  ∃ lib', fs (download_all c kw jobs w).2 = Some lib' ∧ lib ⊆ lib'.
Proof.
  revert w lib. induction jobs as [|book jobs IH]; intros w lib Hfs.
  - by exists lib.
  - rewrite download_all_step. unfold when.
    destruct (Kw.no_download kw); simpl.
    + by apply IH.
    + destruct (download_book_keeps c book kw (announced book w) lib Hfs)
        as (lib1 & Hfs1 & Hsub).
      destruct (download_book c book kw (announced book w)) as [[[]|e|] w1];
        simpl in Hfs1; [|by exists lib1..].
      destruct (IH w1 lib1 Hfs1) as (lib2 & Hfs2 & Hsub2).
      exists lib2. split; [done | by trans lib1].
Qed.

(** X4.  A whole run of [main] never deletes, overwrites or changes an
    entry the library already has, whatever the directives return and
    whichever downloads fail: the library after the run extends the
    library before it. *)
Theorem run_only_grows (d : Discovery) (c : Remote) (LANGUAGES : list string)
    (it : SetOrder) (kw : Kw.t) (w : world) (lib : gmap string node) :
  fs w = Some lib →
  ∃ lib', fs (main d c LANGUAGES it kw w).2 = Some lib' ∧ lib ⊆ lib'.
Proof.
  intros Hfs. unfold main, bind at 1.
  pose proof (login_check_frame d kw w) as Hframe.
  destruct (login_check d kw w) as [[[]|e|] w1]; simpl in Hframe;
    [|exists lib; simpl; by rewrite Hframe..].
  rewrite <-Hframe in Hfs.
  destruct (books_to_download d LANGUAGES it kw) as [[|book jobs]|e].
  - exists lib. split; [|done]. unfold bind, log, when.
    by destruct (bool_decide _).
  - by apply download_all_keeps.
  - by exists lib.
Qed.

(** X5.  With [--no-download] the loop saves nothing: it makes no call on
    the remote service, touches no directory, does not even look whether
    the library directory exists, and logs one line per book, in the order
    of the jobs. *)
Theorem no_download_saves_nothing (c : Remote) (kw : Kw.t) (jobs : list Book)
    (w : world) :
  Kw.no_download kw = true →
  download_all c kw jobs w =
  (Ret tt, World (fs w) (trace w) (logs w ++ announcements jobs)).
Proof.
  intros Hno. revert w. induction jobs as [|book jobs IH]; intros w.
  - unfold announcements. simpl. rewrite app_nil_r. by destruct w.
  - rewrite download_all_step, Hno. simpl. rewrite IH.
    unfold announcements. simpl. by rewrite <-app_assoc.
Qed.

(** X6.  A run over books that are all in the library downloads nothing:
    without [redownload], every job is announced and skipped, no call
    reaches the remote service and the library is left as it is. *)
Theorem rerun_skips_everything (c : Remote) (kw : Kw.t) (jobs : list Book)
    (w : world) (lib : gmap string node) :
  fs w = Some lib →
  Kw.redownload kw = false →
  Kw.no_download kw = false →
  Forall (λ book, is_Some (lib !! slug book)) jobs →
  download_all c kw jobs w =
  (Ret tt, World (fs w) (trace w) (logs w ++ skip_report jobs)).
Proof.
  intros Hfs Hre Hno Hall. revert w Hfs.
  induction Hall as [|book jobs Hbook _ IH]; intros w Hfs.
  - unfold skip_report. simpl. rewrite app_nil_r. by destruct w.
  - rewrite download_all_step, Hno. simpl.
    erewrite download_book_skips; [|done..].
    rewrite IH by done. unfold skip_report. simpl.
    by rewrite <-!app_assoc.
Qed.


(** X8.  The login check of lines 134-139: when it is on and [get_me]
    raises, [main] logs one critical line and raises the same exception;
    no directive result is used, no book is announced and nothing touches
    the library or the remote service of the books. *)
Theorem login_failure_stops_main (d : Discovery) (c : Remote)
    (LANGUAGES : list string) (it : SetOrder) (kw : Kw.t) (w : world) (e : exn) :
  Kw.logincheck kw = true →
  get_me d = Fails e →
  main d c LANGUAGES it kw w =
  (Raise e,
   World (fs w) (trace w)
     (logs w ++
      [(CRITICAL, "You are not logged in, but --logincheck was passed. Check that you are logged in in your browser or pass --no-login.")])).
Proof.
  intros Hcheck Hme. unfold main, bind at 1, login_check, when.
  by rewrite Hcheck, Hme.
Qed.


(** ** A transaction without failure *)

Section Quiet.
Variables (c : Remote) (book : Book) (tmp : string).

Lemma runs_ok_seq (m1 m2 : M unit) (s1 s2 : list step)
    (lg1 lg2 : list (level * string)) :
  runs_ok c book tmp m1 s1 lg1 → runs_ok c book tmp m2 s2 lg2 →
  runs_ok c book tmp (m1 >> m2) (s1 ++ s2) (lg1 ++ lg2).
Proof.
  intros H1 H2 w lib old Hfs Htmp [Hok1 Hok2]%Forall_app.
  rewrite (bind_ret_run _ _ _ _ _ (H1 w lib old Hfs Htmp Hok1)).
  erewrite H2; [|done|apply lookup_insert_eq|done]. simpl.
  by rewrite insert_insert_eq, artifacts_app, fmap_app, !app_assoc.
Qed.

Lemma runs_ok_ret : runs_ok c book tmp (ret tt) [] [].
Proof.
  intros [f t l] lib old Hfs Htmp _. simpl in *. subst f.
  unfold ret, artifacts. simpl. by rewrite !app_nil_r, insert_id.
Qed.

Lemma runs_ok_log (lvl : level) (msg : string) :
  runs_ok c book tmp (log lvl msg) [] [(lvl, msg)].
Proof.
  intros [f t l] lib old Hfs Htmp _. simpl in *. subst f.
  unfold log, artifacts. simpl. by rewrite !app_nil_r, insert_id.
Qed.

Lemma runs_ok_write (s : step) :
  runs_ok c book tmp (write s tmp (step_result c book s)) [s] [].
Proof.
  intros [f t l] lib old Hfs Htmp Hok. simpl in *. subst f.
  apply Forall_singleton in Hok as [files Hs].
  unfold write, artifacts. simpl. by rewrite Hs, Htmp, !app_nil_r.
Qed.

Lemma runs_ok_fetch {A} (s : step) (r : res A) (k : A → M unit)
    (steps : list step) (lg : list (level * string)) :
  step_result c book s = (_ ← r; mret []) →
  (∀ a, r = Done a → runs_ok c book tmp (k a) steps lg) →
  runs_ok c book tmp (x <- fetch s r ;; k x) (s :: steps) lg.
Proof.
  intros Hs Hk [f t l] lib old Hfs Htmp Hok. simpl in *. subst f.
  apply Forall_cons in Hok as [[files Hfiles] Hok].
  rewrite Hs in Hfiles. unfold bind, fetch. destruct r as [a|e]; [|done].
  simpl in Hfiles. injection Hfiles as <-.
  erewrite (Hk a eq_refl); [|done..]. simpl.
  unfold artifacts. simpl. rewrite Hs. simpl. by rewrite <-app_assoc.
Qed.

Lemma runs_ok_when (b : bool) (m : M unit) (steps : list step) :
  runs_ok c book tmp m steps [] →
  runs_ok c book tmp (when b m) (if b then steps else []) [].
Proof. destruct b; [done|]. intros _. apply runs_ok_ret. Qed.

Lemma runs_ok_for_each (chs : list Chapter) :
  runs_ok c book tmp
    (for_each chs (λ ch, write (Audio ch) tmp (download_audio c book ch)))
    (Audio <$> chs) [].
Proof.
  induction chs as [|ch chs IH]; [apply runs_ok_ret|].
  apply (runs_ok_seq _ _ [Audio ch] _ [] []);
    [apply (runs_ok_write (Audio ch)) | done].
Qed.

(** Lines 59-87 without failure: the plan ran, and the log has the warning
    of line 82 exactly when audio was asked of a book that has none. *)
Lemma stage_ok (kw : Kw.t) :
  runs_ok c book tmp (stage c book kw tmp) (plan c book kw) (stage_log book kw).
Proof.
  unfold stage, plan, stage_log.
  apply (runs_ok_fetch ChapterList); [done|]. intros _ _.
  apply (runs_ok_fetch Chapters); [done|]. intros chs ->.
  apply (runs_ok_seq _ _ _ _ []); [apply runs_ok_when, (runs_ok_write RawYaml)|].
  apply (runs_ok_seq _ _ _ _ []); [apply runs_ok_when, (runs_ok_write TextMd)|].
  rewrite <-(app_nil_r (if Kw.audio kw && negb (is_audio book) then _ else _)).
  apply runs_ok_seq; [|apply runs_ok_when, (runs_ok_write Cover)].
  destruct (Kw.audio kw), (is_audio book); simpl.
  - apply runs_ok_for_each.
  - apply runs_ok_log.
  - apply runs_ok_ret.
  - apply runs_ok_ret.
Qed.
End Quiet.

(** A commit, with its log. *)
Lemma download_book_commits_log (c : Remote) (book : Book) (kw : Kw.t)
    (w : world) (lib : gmap string node) :
  fs w = Some lib →
  lib !! slug book = None →
  Forall (succeeds c book) (plan c book kw) →
  ∃ i,
    lib !! tmp_name (slug book) i = None ∧
    download_book c book kw w =
    (Ret tt,
     World (Some (<[slug book := Dir (artifacts c book (plan c book kw))]> lib))
           (trace w ++ EvMkdir (tmp_name (slug book) i) ::
              (EvCall <$> plan c book kw) ++
              [EvRename (tmp_name (slug book) i) (slug book)])
           (logs w ++ stage_log book kw)).
Proof.
  intros Hfs Hnone Hok.
  destruct (download_book_started c book kw w lib Hfs (or_introl Hnone))
    as (i & Hfree & _ & ->).
  exists i. split; [done|].
  set (tmp := tmp_name (slug book) i) in *.
  unfold try_except.
  erewrite bind_ret_run;
    [|by apply (stage_ok c book tmp kw _ (<[tmp := Dir []]> lib) []);
        [|apply lookup_insert_eq|]].
  erewrite commit_free; [|done| |apply lookup_insert_eq].
  - simpl. by rewrite insert_insert_eq, delete_insert_id, <-!app_assoc by done.
  - simpl. rewrite insert_insert_eq, lookup_insert_ne; [done | apply tmp_name_ne].
Qed.

(** X10.  Audio is asked of a book that has none (lines 77-82): the
    transaction logs one warning and goes on.  When its other steps
    succeed, it commits the book, it logs nothing but the warning, and it
    makes no audio call. *)
Theorem no_audio_only_warns (c : Remote) (book : Book) (kw : Kw.t) (w : world)
    (lib : gmap string node) :
  Kw.audio kw = true → is_audio book = false →
  fs w = Some lib → lib !! slug book = None →
  Forall (succeeds c book) (plan c book kw) →
  (download_book c book kw w).1 = Ret tt ∧
  (∃ files, fs (download_book c book kw w).2 =
              Some (<[slug book := Dir files]> lib)) ∧
  logs (download_book c book kw w).2 =
    logs w ++ [(WARNING, "This book has no audio.")] ∧
  (∀ ch, EvCall (Audio ch) ∈ trace (download_book c book kw w).2 →
         EvCall (Audio ch) ∈ trace w).
Proof.
  intros Haudio Hnone Hfs Hslug Hok.
  destruct (download_book_commits_log c book kw w lib Hfs Hslug Hok)
    as (i & _ & ->).
  cbn [fst snd fs trace logs]. split_and!; [done|by eexists| |].
  - unfold stage_log. by rewrite Haudio, Hnone.
  - intros ch [Hin|Hin]%elem_of_app; [done|].
    apply elem_of_cons in Hin as [?|Hin]; [done|].
    apply elem_of_app in Hin as [Hin|Hin];
      [|by apply list_elem_of_singleton in Hin].
    apply list_elem_of_fmap in Hin as (s & [= <-] & Hs).
    unfold plan in Hs. rewrite Haudio, Hnone in Hs. simpl in Hs.
    destruct (Kw.yaml kw), (Kw.markdown kw), (Kw.cover kw); simpl in Hs;
      repeat (apply elem_of_cons in Hs as [[=]|Hs]);
      by apply elem_of_nil in Hs.
Qed.

Lemma artifacts_audio (c : Remote) (book : Book) (chs : list Chapter)
    (a : Chapter → list string) :
  (∀ ch, ch ∈ chs → download_audio c book ch = Done (a ch)) →
  artifacts c book (Audio <$> chs) = chs ≫= a ∧
  Forall (succeeds c book) (Audio <$> chs).
Proof.
  induction chs as [|ch chs IH]; intros Ha; [by split; [|constructor]|].
  destruct IH as [IH1 IH2]; [intros; apply Ha; by right|].
  assert (download_audio c book ch = Done (a ch)) as Hch by (apply Ha; by left).
  split.
  - unfold artifacts in *. rewrite fmap_cons, bind_cons, IH1.
    cbn [step_result]. by rewrite Hch.
  - rewrite fmap_cons. constructor; [by exists (a ch) | done].
Qed.

(** X11.  What a committed book directory holds: when every call
    succeeds, the files of the enabled kinds in the order of the source,
    raw YAML first, then the text, then the audio chapter by chapter (for
    a book that has audio), the cover last; the two prefetches add no
    file, and the log gets nothing but the warning for missing audio. *)
Theorem committed_contents (c : Remote) (book : Book) (kw : Kw.t) (w : world)
    (lib : gmap string node) (chs : list Chapter) (y m cv : list string)
    (a : Chapter → list string) :
  fs w = Some lib → lib !! slug book = None →
  chapter_list c book = Done tt → chapters c book = Done chs →
  download_raw_yaml c book = Done y →
  download_text_md c book = Done m →
  (∀ ch, ch ∈ chs → download_audio c book ch = Done (a ch)) →
  download_cover c book = Done cv →
  (download_book c book kw w).1 = Ret tt ∧
  fs (download_book c book kw w).2 =
    Some (<[slug book :=
              Dir ((if Kw.yaml kw then y else []) ++
                   (if Kw.markdown kw then m else []) ++
                   (if Kw.audio kw && is_audio book then chs ≫= a else []) ++
                   (if Kw.cover kw then cv else []))]> lib) ∧
  logs (download_book c book kw w).2 = logs w ++ stage_log book kw.
Proof.
  intros Hfs Hslug Hcl Hchs Hy Hm Ha Hcv.
  destruct (artifacts_audio c book chs a Ha) as [Haudio Haudio_ok].
  assert (Forall (succeeds c book) (plan c book kw) ∧
          artifacts c book (plan c book kw) =
            (if Kw.yaml kw then y else []) ++
            (if Kw.markdown kw then m else []) ++
            (if Kw.audio kw && is_audio book then chs ≫= a else []) ++
            (if Kw.cover kw then cv else [])) as [Hok Hart].
  { unfold plan. rewrite Hchs. split.
    - repeat apply Forall_app_2.
      + repeat constructor; eexists; unfold step_result;
          [by rewrite Hcl | by rewrite Hchs].
      + destruct (Kw.yaml kw); repeat constructor. by exists y.
      + destruct (Kw.markdown kw); repeat constructor. by exists m.
      + by destruct (Kw.audio kw && is_audio book).
      + destruct (Kw.cover kw); repeat constructor. by exists cv.
    - rewrite !artifacts_app.
      assert (artifacts c book [ChapterList; Chapters] = []) as ->.
      { unfold artifacts, step_result. simpl. by rewrite Hcl, Hchs. }
      rewrite app_nil_l. f_equal; [|f_equal; [|f_equal]].
      + destruct (Kw.yaml kw); unfold artifacts; simpl; [|done].
        by rewrite Hy, app_nil_r.
      + destruct (Kw.markdown kw); unfold artifacts; simpl; [|done].
        by rewrite Hm, app_nil_r.
      + by destruct (Kw.audio kw && is_audio book).
      + destruct (Kw.cover kw); unfold artifacts; simpl; [|done].
        by rewrite Hcv, app_nil_r. }
  destruct (download_book_commits_log c book kw w lib Hfs Hslug Hok)
    as (i & _ & ->).
  cbn [fst snd fs logs]. by rewrite Hart.
Qed.

(** X12.  The limit never reorders or picks: whatever its value, the
    resolved list is an initial part of the filtered one.  A negative
    limit is not refused; it cuts that many books off the end. *)
Theorem limit_is_prefix (limit : option Z) (xs : list Book) :
  limit_books limit xs `prefix_of` xs ∧
  (∀ n, limit = Some n → (n < 0)%Z →
        length (limit_books limit xs) = length xs - Z.to_nat (- n)) ∧
  (limit = None → limit_books limit xs = xs).
Proof.
  split_and!.
  - destruct limit as [n|]; simpl; [|done]. case_decide; [done|].
    unfold slice_to. case_decide; apply prefix_take.
  - intros n -> Hn. unfold limit_books, slice_to.
    rewrite !decide_False by lia. rewrite length_take. lia.
  - by intros ->.
Qed.

(** X13.  A rerun does not resume.  After a transaction that failed, a
    second transaction for the same book that succeeds takes a staging
    name of its own and commits only what it fetched itself; the staging
    directory of the failed attempt stays in the library, with what it
    had, beside the committed book. *)
Theorem retry_starts_over (c1 c2 : Remote) (book : Book) (kw : Kw.t)
    (w : world) (lib : gmap string node) (done rest : list step) (s : step)
    (e : exn) :
  fs w = Some lib → lib !! slug book = None →
  plan c1 book kw = done ++ s :: rest →
  Forall (succeeds c1 book) done →
  step_result c1 book s = Fails e →
  Forall (succeeds c2 book) (plan c2 book kw) →
  ∃ i j,
    i ≠ j ∧
    fs (download_book c2 book kw (download_book c1 book kw w).2).2 =
      Some (<[slug book := Dir (artifacts c2 book (plan c2 book kw))]>
              (<[tmp_name (slug book) i := Dir (artifacts c1 book done)]> lib)) ∧
    EvMkdir (tmp_name (slug book) i) ∈ trace (download_book c1 book kw w).2 ∧
    EvMkdir (tmp_name (slug book) j) ∈
      trace (download_book c2 book kw (download_book c1 book kw w).2).2.
Proof.
  intros Hfs Hslug Hplan Hdone Hs Hok.
  destruct (download_book_fails c1 book kw w lib done rest s e)
    as (i & lg & Hfree & _ & ->); [by eauto..|].
  cbn [snd].
  destruct (download_book_commits c2 book kw
              (World (Some (<[tmp_name (slug book) i :=
                                Dir (artifacts c1 book done)]> lib))
                     (trace w ++ EvMkdir (tmp_name (slug book) i) ::
                        (EvCall <$> done ++ [s]))
                     (logs w ++ lg ++
                        error_report book kw (tmp_name (slug book) i) e))
              (<[tmp_name (slug book) i := Dir (artifacts c1 book done)]> lib))
    as (j & lg' & Hfree' & _ & ->); [done| |done|].
  { rewrite lookup_insert_ne; [done | apply tmp_name_ne]. }
  exists i, j. cbn [snd fs trace]. split_and!; [|done| |].
  - intros ->. by rewrite lookup_insert_eq in Hfree'.
  - apply elem_of_app. right. by left.
  - apply elem_of_app. right. by left.
Qed.

(** ** The gathered set and the directives *)

Lemma elem_of_set_add (s : list Book) (b x : Book) :
  x ∈ set_add s b → x ∈ s ∨ x = b.
Proof.
  destruct (decide (slug b ∈ slug <$> s)) as [Hin|Hout].
  - rewrite set_add_old by done. by left.
  - rewrite set_add_new by done.
    intros [?|?%list_elem_of_singleton]%elem_of_app; [by left | by right].
Qed.

Lemma slug_of_set_add (s : list Book) (b : Book) (k : string) :
  k ∈ slug <$> set_add s b ↔ k ∈ slug <$> s ∨ k = slug b.
Proof.
  destruct (decide (slug b ∈ slug <$> s)) as [Hin|Hout].
  - rewrite set_add_old by done. split; [by left|]. by intros [?| ->].
  - rewrite set_add_new, fmap_app, elem_of_app by done. simpl.
    by rewrite list_elem_of_singleton.
Qed.

Lemma elem_of_foldl_set_add (l s : list Book) (x : Book) :
  x ∈ foldl set_add s l → x ∈ s ∨ x ∈ l.
Proof.
  revert s. induction l as [|b l IH]; intros s; simpl; [by left|].
  intros [[?| ->]%elem_of_set_add|?]%IH.
  - by left.
  - right. by left.
  - right. by right.
Qed.

Lemma slug_of_foldl_set_add (l s : list Book) (k : string) :
  k ∈ slug <$> foldl set_add s l ↔ k ∈ slug <$> s ∨ k ∈ slug <$> l.
Proof.
  revert s. induction l as [|b l IH]; intros s; simpl.
  - rewrite elem_of_nil. tauto.
  - rewrite IH, slug_of_set_add, elem_of_cons. tauto.
Qed.

Lemma represents_nil : represents [] [].
Proof. split; intros b Hb; by apply elem_of_nil in Hb. Qed.

Lemma represents_add (s all : list Book) (b : Book) :
  represents s all → represents (set_add s b) (all ++ [b]).
Proof.
  intros [Hin Hslug]. split.
  - intros x [?| ->]%elem_of_set_add; apply elem_of_app.
    + left. by apply Hin.
    + right. by apply list_elem_of_singleton.
  - intros x [?| ->%list_elem_of_singleton]%elem_of_app;
      apply slug_of_set_add; [left; by apply Hslug | by right].
Qed.

Lemma represents_update (it : SetOrder) (s all bs : list Book) :
  represents s all → represents (set_update it s (set_of bs)) (all ++ bs).
Proof.
  intros [Hin Hslug]. unfold set_update, set_of. split.
  - intros x [?|Hx]%elem_of_foldl_set_add; apply elem_of_app.
    + left. by apply Hin.
    + right. rewrite iterate_perm in Hx.
      apply elem_of_foldl_set_add in Hx as [Hx|?]; [|done].
      by apply elem_of_nil in Hx.
  - intros x Hx. apply slug_of_foldl_set_add.
    apply elem_of_app in Hx as [?|Hx]; [left; by apply Hslug|].
    right. rewrite iterate_perm. apply slug_of_foldl_set_add. right.
    by apply list_elem_of_fmap_2.
Qed.

Lemma represents_collections (it : SetOrder) (cs : list Collection)
    (s all : list Book) :
  represents s all →
  represents (foldl (λ s c, set_update it s (set_of (books c))) s cs)
             (foldl (λ all c, all ++ books c) all cs).
Proof.
  revert s all. induction cs as [|c cs IH]; intros s all Hs; simpl; [done|].
  by apply IH, represents_update.
Qed.

Lemma gather_represents (d : Discovery) (LANGUAGES : list string)
    (it : SetOrder) (kw : Kw.t) :
  res_rel represents (gather d LANGUAGES it kw) (discovered d LANGUAGES kw).
Proof.
  unfold gather, discovered.
  eapply (res_rel_bind represents).
  { destruct (truthy (Kw.book_slug kw)); [|apply represents_nil].
    apply res_rel_refl_bind. intros b.
    apply (represents_add [] [] b), represents_nil. }
  intros s all Hs. eapply (res_rel_bind represents).
  { destruct (Kw.latest_collections kw); [|done].
    apply res_rel_refl_bind. intros cs. by apply represents_collections. }
  clear s all Hs. intros s all Hs. eapply (res_rel_bind represents).
  { destruct (Kw.freedaily kw); [|done].
    apply res_rel_fold; [|done]. intros a1 a2 l Ha.
    apply res_rel_refl_bind. intros b. by apply represents_add. }
  clear s all Hs. intros s all Hs. eapply (res_rel_bind represents).
  { destruct (truthy (Kw.search kw)); [|done].
    apply res_rel_refl_bind. intros bs. by apply represents_update. }
  clear s all Hs. intros s all Hs. eapply (res_rel_bind represents).
  { destruct (Kw.latest kw); [|done].
    apply res_rel_refl_bind. intros bs. by apply represents_update. }
  clear s all Hs. intros s all Hs.
  destruct (Kw.trending kw); [|done].
  apply res_rel_refl_bind. intros bs. by apply represents_update.
Qed.

(** X14.  The resolver invents nothing and forgets no identifier.  The
    directives raise, and then so does the resolver with the same
    exception, or they return books, and then every member of the gathered
    set is one of the returned books and every returned book has its
    identifier in the set.  Every resolved job is a returned book whose
    language passes the filter. *)
Theorem resolved_from_directives (d : Discovery) (LANGUAGES : list string)
    (it : SetOrder) (kw : Kw.t) :
  res_rel represents (gather d LANGUAGES it kw) (discovered d LANGUAGES kw) ∧
  (∀ jobs, books_to_download d LANGUAGES it kw = Done jobs →
     ∃ all, discovered d LANGUAGES kw = Done all ∧
            ∀ b, b ∈ jobs →
                 b ∈ all ∧ language b ∈ languages_to_download LANGUAGES kw).
Proof.
  pose proof (gather_represents d LANGUAGES it kw) as Hrel.
  split; [done|].
  intros jobs (s & Hs & ->)%books_to_download_Done.
  rewrite Hs in Hrel.
  destruct (discovered d LANGUAGES kw) as [all|e]; [|done].
  destruct Hrel as [Hin _]. exists all. split; [done|].
  intros b Hb. eapply elem_of_sublist in Hb; [|apply limit_books_sublist].
  unfold filter_languages in Hb.
  apply list_elem_of_filter in Hb as [Hlang Hb].
  rewrite iterate_perm in Hb. split; [by apply Hin | done].
Qed.

(** X15.  A redownload never replaces a book that is there.  With
    [redownload] and the final directory present, the transaction stages
    and fetches, but it cannot commit: a step raises, or the assertion of
    line 90 does.  The existing directory stays as it is, a new staging
    directory is left beside it, and the call ends through the [except]
    clause, so without [continue_on_error] it raises. *)
Theorem redownload_never_replaces (c : Remote) (book : Book) (kw : Kw.t)
    (w : world) (lib : gmap string node) :
  fs w = Some lib →
  is_Some (lib !! slug book) →
  Kw.redownload kw = true →
  ∃ i files e,
    lib !! tmp_name (slug book) i = None ∧
    fs (download_book c book kw w).2 =
      Some (<[tmp_name (slug book) i := Dir files]> lib) ∧
    (download_book c book kw w).1 = after_error kw e ∧
    (Forall (succeeds c book) (plan c book kw) →
     e = AssertionError ∧ files = artifacts c book (plan c book kw)).
Proof.
  intros Hfs Hthere Hre.
  destruct (first_failure c book (plan c book kw))
    as [Hok|(done & s & rest & e & Hplan & Hdone & Hs)].
  - destruct (download_book_race c book kw w lib)
      as (i & lg & Hfree & _ & ->); [done..|].
    by exists i, (artifacts c book (plan c book kw)), AssertionError.
  - destruct (download_book_fails c book kw w lib done rest s e)
      as (i & lg & Hfree & _ & ->); [by eauto..|].
    exists i, (artifacts c book done), e. split_and!; [done..|].
    intros Hok. rewrite Hplan in Hok.
    apply Forall_app in Hok as [_ [[files Hfiles] _]%Forall_cons].
    by rewrite Hs in Hfiles.
Qed.

(** ** The further properties on sample runs *)

(** With the stale [alpha.tmp] in the library the transaction for [alpha]
    starts by making a staging directory of another name. *)
Lemma staging_directory_first_free_witness :
  ∃ i rest,
    i ≤ 1 ∧
    trace (download_book Sample.remote_ok Sample.alpha Sample.kw_default
             Sample.stale_library).2 = EvMkdir (tmp_name "alpha" i) :: rest.
Proof.
  destruct (staging_directory_first_free Sample.remote_ok Sample.alpha
              Sample.kw_default Sample.stale_library
              {[ "alpha.tmp" := Dir ["book.yaml"] ]})
    as (i & rest & Hle & _ & _ & Htrace & _).
  - reflexivity.
  - left. reflexivity.
  - exists i, rest. split; [exact Hle | exact Htrace].
Defined.

Lemma library_only_grows_witness :
  ∃ lib',
    fs (download_book Sample.remote_audio_fails Sample.alpha Sample.kw_default
          Sample.stale_library).2 = Some lib' ∧
    lib' !! "alpha.tmp" = Some (Dir ["book.yaml"]).
Proof.
  destruct (library_only_grows Sample.remote_audio_fails Sample.alpha
              Sample.kw_default Sample.stale_library
              {[ "alpha.tmp" := Dir ["book.yaml"] ]})
    as (lib' & Hfs & Hsub & _).
  - reflexivity.
  - exists lib'. split; [exact Hfs|].
    exact (lookup_weaken _ _ _ _ (lookup_singleton_eq _ _) Hsub).
Defined.

Lemma calls_follow_plan_witness :
  ∃ called,
    called `prefix_of`
      [ChapterList; Chapters; RawYaml; TextMd; Audio "c1"; Audio "c2"; Cover].
Proof.
  destruct (calls_follow_plan Sample.remote_audio_fails Sample.alpha
              Sample.kw_default Sample.empty_library ∅)
    as (i & called & Hpre & _).
  - reflexivity.
  - left. reflexivity.
  - exists called. exact Hpre.
Defined.

Lemma run_only_grows_witness :
  ∃ lib',
    fs (main Sample.discovery Sample.remote_audio_fails Sample.LANGUAGES
          Sample.insertion_order Sample.kw_overlap Sample.stale_library).2 =
      Some lib' ∧
    lib' !! "alpha.tmp" = Some (Dir ["book.yaml"]).
Proof.
  destruct (run_only_grows Sample.discovery Sample.remote_audio_fails
              Sample.LANGUAGES Sample.insertion_order Sample.kw_overlap
              Sample.stale_library {[ "alpha.tmp" := Dir ["book.yaml"] ]})
    as (lib' & Hfs & Hsub).
  - reflexivity.
  - exists lib'. split; [exact Hfs|].
    exact (lookup_weaken _ _ _ _ (lookup_singleton_eq _ _) Hsub).
Defined.

Lemma no_download_saves_nothing_witness :
  download_all Sample.remote_ok Runs.kw_dry [Sample.alpha; Sample.beta]
    Sample.no_library =
  (Ret tt, World None [] [(INFO, "Book: “Alpha”"); (INFO, "Book: “Beta”")]).
Proof.
  exact (no_download_saves_nothing Sample.remote_ok Runs.kw_dry
           [Sample.alpha; Sample.beta] Sample.no_library eq_refl).
Defined.

Lemma rerun_skips_everything_witness :
  download_all Sample.remote_ok Sample.kw_default [Sample.alpha]
    Sample.full_library =
  (Ret tt,
   World (fs Sample.full_library) []
     [(INFO, "Book: “Alpha”");
      (INFO, "Skipping “Alpha” – already downloaded.")]).
Proof.
  apply (rerun_skips_everything Sample.remote_ok Sample.kw_default
           [Sample.alpha] Sample.full_library
           {[ "alpha" := Dir ["book.yaml"] ]}).
  - reflexivity.
  - reflexivity.
  - reflexivity.
  - constructor; [|constructor]. exists (Dir ["book.yaml"]). reflexivity.
Defined.


Lemma login_failure_stops_main_witness :
  (main Runs.discovery_logged_out Sample.remote_ok Sample.LANGUAGES
     Sample.insertion_order Sample.kw_overlap Sample.empty_library).1 =
  Raise Runs.not_logged_in.
Proof.
  rewrite (login_failure_stops_main Runs.discovery_logged_out Sample.remote_ok
             Sample.LANGUAGES Sample.insertion_order Sample.kw_overlap
             Sample.empty_library Runs.not_logged_in eq_refl eq_refl).
  reflexivity.
Defined.


(** [beta] has no audio: with the default switches it is committed with
    one warning. *)
Lemma no_audio_only_warns_witness :
  logs (download_book Sample.remote_ok Sample.beta Sample.kw_default
          Sample.empty_library).2 = [(WARNING, "This book has no audio.")].
Proof.
  destruct (no_audio_only_warns Sample.remote_ok Sample.beta Sample.kw_default
              Sample.empty_library ∅) as (_ & _ & Hlogs & _).
  - reflexivity.
  - reflexivity.
  - reflexivity.
  - reflexivity.
  - repeat constructor; eexists; reflexivity.
  - exact Hlogs.
Defined.

Lemma committed_contents_witness :
  fs (download_book Sample.remote_ok Sample.alpha Sample.kw_default
        Sample.empty_library).2 =
  Some {[ "alpha" :=
            Dir ["book.yaml"; "book.md"; "c1.m4a"; "c2.m4a"; "cover.jpg"] ]}.
Proof.
  destruct (committed_contents Sample.remote_ok Sample.alpha Sample.kw_default
              Sample.empty_library ∅ ["c1"; "c2"] ["book.yaml"] ["book.md"]
              ["cover.jpg"] (λ ch, [ch +:+ ".m4a"])) as (_ & Hfs & _).
  - reflexivity.
  - reflexivity.
  - reflexivity.
  - reflexivity.
  - reflexivity.
  - reflexivity.
  - intros ch _. reflexivity.
  - reflexivity.
  - exact Hfs.
Defined.

Lemma limit_is_prefix_witness :
  length (limit_books (Some (-1)%Z) [Sample.alpha; Sample.beta]) = 1.
Proof.
  destruct (limit_is_prefix (Some (-1)%Z) [Sample.alpha; Sample.beta])
    as (_ & Hneg & _).
  exact (Hneg (-1)%Z eq_refl eq_refl).
Defined.

Lemma retry_starts_over_witness :
  ∃ i,
    fs (download_book Sample.remote_ok Sample.alpha Sample.kw_default
          (download_book Sample.remote_audio_fails Sample.alpha
             Sample.kw_default Sample.empty_library).2).2 =
    Some (<["alpha" :=
              Dir ["book.yaml"; "book.md"; "c1.m4a"; "c2.m4a"; "cover.jpg"]]>
            (<[tmp_name "alpha" i :=
                 Dir ["book.yaml"; "book.md"; "c1.m4a"]]> ∅)).
Proof.
  destruct (retry_starts_over Sample.remote_audio_fails Sample.remote_ok
              Sample.alpha Sample.kw_default Sample.empty_library ∅
              [ChapterList; Chapters; RawYaml; TextMd; Audio "c1"] [Cover]
              (Audio "c2") Sample.timed_out)
    as (i & j & _ & Hfs & _).
  - reflexivity.
  - reflexivity.
  - reflexivity.
  - repeat constructor; eexists; reflexivity.
  - reflexivity.
  - repeat constructor; eexists; reflexivity.
  - exists i. exact Hfs.
Defined.

Lemma resolved_from_directives_witness :
  ∃ all,
    discovered Sample.discovery Sample.LANGUAGES Sample.kw_overlap = Done all ∧
    ∀ b, b ∈ [Sample.beta; Sample.alpha] →
         b ∈ all ∧
         language b ∈ languages_to_download Sample.LANGUAGES Sample.kw_overlap.
Proof.
  destruct (resolved_from_directives Sample.discovery Sample.LANGUAGES
              Sample.insertion_order Sample.kw_overlap) as [_ Hjobs].
  apply Hjobs. vm_compute. reflexivity.
Defined.

Lemma redownload_never_replaces_witness :
  (download_book Sample.remote_ok Sample.alpha Sample.kw_redownload
     Sample.full_library).1 = Raise AssertionError.
Proof.
  destruct (redownload_never_replaces Sample.remote_ok Sample.alpha
              Sample.kw_redownload Sample.full_library
              {[ "alpha" := Dir ["book.yaml"] ]})
    as (i & files & e & _ & _ & Hres & Hok).
  - reflexivity.
  - exists (Dir ["book.yaml"]). reflexivity.
  - reflexivity.
  - destruct Hok as [-> _]; [|exact Hres].
    repeat constructor; eexists; reflexivity.
Defined.
